(** * EtherWallet: the transaction graph component

    A shallow embedding of [src/components/TransactionGraph.tsx]: the
    effect that turns a transaction list into nodes and links, the
    link-weight normalisation, and the tick / drag handlers that drive
    the d3 force simulation; of the part of
    [src/app/api/wallet/route.ts] that prepares the records the graph
    is drawn from; and of the address check, paging, cooldown and
    search cache of [src/app/transactions/page.tsx].

    Numbers.  A JavaScript [number] is an IEEE double.  Amounts and
    coordinates are embedded as exact rationals [Q]; the non-finite
    results of a division by zero are made visible by a partial
    division ([Js.div]).  [===] on numbers is [Qeq_bool].  A sum is
    written as the code takes it, from left to right, and no statement
    below regroups one, since rounding does not allow it.

    State.  The effect of the graph component reads the refs of the
    rendered elements before anything else; what is rendered follows
    from the state left by the previous render, which the effect
    therefore takes as an argument. *)

From Stdlib Require Import QArith Qminmax Qround Lia Lqa Ascii.
From stdpp Require Import gmap strings list.

Local Open Scope Q_scope.

(** ** JavaScript runtime pieces used by the component *)

Module Js.

(** Truthiness of a string: every string but the empty one. *)
Definition truthy (s : string) : bool := negb (String.eqb s "").

(** [a || b] on numbers: [a] unless it is falsy (zero). *)
Definition or_num (a b : Q) : Q := if Qeq_bool a 0 then b else a.

(** [a / b]; [None] stands for the non-finite result ([Infinity],
    [-Infinity] or [NaN]) that JavaScript yields when [b] is zero. *)
Definition div (a b : Q) : option Q :=
  if Qeq_bool b 0 then None else Some (a / b).

(** [Math.max(...xs)]; [None] stands for [-Infinity] on no argument. *)
Definition Math_max (xs : list Q) : option Q :=
  match xs with
  | [] => None
  | x :: r => Some (fold_left Qmax r x)
  end.

(** [Math.min(...xs)]; [None] stands for [Infinity] on no argument. *)
Definition Math_min (xs : list Q) : option Q :=
  match xs with
  | [] => None
  | x :: r => Some (fold_left Qmin r x)
  end.

(** A [Set<string>] whose iteration order matters: insertion order,
    no duplicates. *)
Definition has (s : list string) (k : string) : bool :=
  existsb (String.eqb k) s.

Definition add (k : string) (s : list string) : list string :=
  if has s k then s else s ++ [k].

(** [a || b] on strings: [a] unless it is the empty string. *)
Definition or_string (a b : string) : string := if truthy a then a else b.

(** [l.slice(start, stop)], with JavaScript's reading of negative and
    out-of-range indices. *)
Definition slice {X} (l : list X) (start stop : Z) : list X :=
  let len := Z.of_nat (length l) in
  let k := if (start <? 0)%Z then Z.max (len + start) 0
           else Z.min start len in
  let final := if (stop <? 0)%Z then Z.max (len + stop) 0
               else Z.min stop len in
  firstn (Z.to_nat (final - k)) (skipn (Z.to_nat k) l).

(** [toLowerCase] on the ASCII letters; addresses hold no others. *)
Definition lowerAscii (c : ascii) : ascii :=
  let n := nat_of_ascii c in
  if (65 <=? n)%nat && (n <=? 90)%nat then ascii_of_nat (n + 32) else c.

Fixpoint toLowerCase (s : string) : string :=
  match s with
  | EmptyString => EmptyString
  | String c r => String (lowerAscii c) (toLowerCase r)
  end.

(** A stable sort, as [Array.prototype.sort] is, by a numeric key in
    ascending order (the comparator [(a, b) => key(a) - key(b)]). *)
Fixpoint insertBy {X} (key : X -> Z) (a : X) (l : list X) : list X :=
  match l with
  | [] => [a]
  | b :: r => if (key a <=? key b)%Z then a :: l
              else b :: insertBy key a r
  end.

Definition sortBy {X} (key : X -> Z) (l : list X) : list X :=
  fold_right (insertBy key) [] l.

End Js.

(** ** Data model (the interfaces at the top of the file) *)

Inductive Direction := outgoing | incoming.

Inductive DetailLevel := low | medium | high.

Module Transaction.
Record t := mk {
  source : string;
  target : string;
  amount : Q;
  date : string;
  transactionId : string;
  direction : Direction;
  gasCost : Q
}.
End Transaction.

(** A node as created by the builder; the fields of [SimulationNodeDatum]
    are added when the simulation takes the node over (see [Layout]). *)
Record Node := mkNode {
  id : string;
  explored : bool
}.

(** [source] and [target] hold what [nodeMap.get] returned: a node
    object, or [undefined] ([None]). *)
Module Link.
Record t := mk {
  source : option Node;
  target : option Node;
  value : Q;
  direction : Direction;
  transactionId : string
}.


End Link.

Record Graph := mkGraph {
  nodes : list Node;
  links : list Link.t;
  maxValue : option Q;
  minValue : option Q
}.

(** The component state the main effect writes, and the simulation it
    hands to d3 ([None]: no simulation was created by this run). *)
Record ViewState := mkView {
  error : option string;
  isLoading : bool;
  totalTransactionCount : nat;
  displayedTransactionCount : nat;
  simulation : option Graph
}.

(** ** The main effect: from transactions to nodes and links *)

Module TransactionGraph.

(** The three messages passed to [setError] by the builder. *)
Definition msgNoData : string :=
  "No transaction data available to display in the graph.".
Definition msgNoValidData : string :=
  "No valid transaction data found. The transactions may be missing source or target addresses.".
Definition msgNoConnections : string :=
  "No valid connections found between addresses. Try searching for a different address.".

(** The two ways a build fails, as the specification names them: the
    input list was empty ([NoValidTransactions]), or there were
    transactions but no edge could be drawn from them
    ([NoValidConnections]). *)
Inductive BuildError := NoValidTransactions | NoValidConnections.

(** The failure a message stands for: the guard on the empty input
    (lines 140-144) reports the first; the guard on the list left by
    the filter (lines 167-171) and the guards on an empty link list
    (lines 286-300) report the second. *)
Definition errorOf (msg : string) : option BuildError :=
  if String.eqb msg msgNoData then Some NoValidTransactions
  else if String.eqb msg msgNoValidData || String.eqb msg msgNoConnections
  then Some NoValidConnections
  else None.

Definition buildError (st : ViewState) : option BuildError :=
  match error st with
  | Some msg => errorOf msg
  | None => None
  end.

(** Whether [svgRef.current] is set.  The component renders the [svg]
    only while no error is shown ([error ? <div>...</div> : ... <svg
    ref={svgRef}>], lines 820-840); the container [div] is always
    rendered. *)
Definition svgMounted (st : ViewState) : bool :=
  match error st with
  | Some msg => negb (Js.truthy msg)
  | None => true
  end.

(** The effect on [detailLevel]. *)
Definition transactionLimit (detailLevel : DetailLevel) : nat :=
  match detailLevel with
  | low => 25
  | medium => 50
  | high => 100
  end%nat.

(** The filter predicate of [validTransactions]; [typeof tx.amount ===
    'number'] holds of every [Transaction]. *)
Definition isValid (tx : Transaction.t) : bool :=
  Js.truthy (Transaction.source tx) && Js.truthy (Transaction.target tx)
  && true
  && negb (String.eqb (Transaction.source tx) (Transaction.target tx)).

Definition validTransactions (transactions : list Transaction.t)
  : list Transaction.t :=
  List.filter isValid transactions.

(** [validTransactions.slice(0, transactionLimit)] *)
Definition limitedTransactions (limit : nat)
    (transactions : list Transaction.t) : list Transaction.t :=
  firstn limit (validTransactions transactions).

(** The callback of the [forEach] that fills [nodeIds]. *)
Definition addEnds (ids : list string) (tx : Transaction.t) : list string :=
  let ids :=
    if Js.truthy (Transaction.source tx)
    then Js.add (Transaction.source tx) ids else ids in
  if Js.truthy (Transaction.target tx)
  then Js.add (Transaction.target tx) ids else ids.

Definition nodeIds (focusAddress : string)
    (limited : list Transaction.t) : list string :=
  fold_left addEnds limited (Js.add focusAddress []).

Definition mkNodes (exploredNodes : gset string) (ids : list string)
  : list Node :=
  List.map (fun i => mkNode i (bool_decide (i ∈ exploredNodes))) ids.

Definition nodeMap (ns : list Node) : gmap string Node :=
  fold_left (fun m n => <[id n := n]> m) ns ∅.

Definition mapHas (m : gmap string Node) (k : string) : bool :=
  bool_decide (is_Some (m !! k)).

Definition directionOf (focusAddress : string) (t : Transaction.t)
  : Direction :=
  if String.eqb (Transaction.source t) focusAddress
  then outgoing else incoming.

(** The object built by the [.map] callback of the primary pass. *)
Definition linkOf (focusAddress : string) (m : gmap string Node)
    (t : Transaction.t) : Link.t :=
  Link.mk (m !! Transaction.source t) (m !! Transaction.target t)
          (Js.or_num (Transaction.amount t) (1 # 10000))
          (directionOf focusAddress t)
          (Transaction.transactionId t).

(** The primary pass: [limitedTransactions.filter(...).map(...)]. *)
Definition primaryLinks (focusAddress : string) (m : gmap string Node)
    (limited : list Transaction.t) : list Link.t :=
  List.map (linkOf focusAddress m)
    (List.filter
       (fun t => mapHas m (Transaction.source t)
                 && mapHas m (Transaction.target t))
       limited).

(** The addresses collected by the fallback branch. *)
Definition uniqueAddresses (focusAddress : string)
    (valid : list Transaction.t) : list string :=
  fold_left
    (fun s tx =>
       let s :=
         if negb (String.eqb (Transaction.source tx) focusAddress)
         then Js.add (Transaction.source tx) s else s in
       if negb (String.eqb (Transaction.target tx) focusAddress)
       then Js.add (Transaction.target tx) s else s)
    valid [].

(** [txs.reduce((sum, tx) => sum + tx.amount, 0)] *)
Definition sumAmounts (txs : list Transaction.t) : Q :=
  fold_left (fun sum tx => sum + Transaction.amount tx) txs 0.

(** The links pushed by the fallback branch for one address. *)
Definition directLinksOf (focusAddress : string) (m : gmap string Node)
    (valid : list Transaction.t) (address : string) : list Link.t :=
  if negb (mapHas m address) || negb (mapHas m focusAddress) then []
  else
    let incomingTxs :=
      List.filter
        (fun tx => String.eqb (Transaction.source tx) address
                   && String.eqb (Transaction.target tx) focusAddress)
        valid in
    let outgoingTxs :=
      List.filter
        (fun tx => String.eqb (Transaction.source tx) focusAddress
                   && String.eqb (Transaction.target tx) address)
        valid in
    match incomingTxs with
    | [] => []
    | tx0 :: _ =>
        [Link.mk (m !! address) (m !! focusAddress)
                 (sumAmounts incomingTxs) incoming
                 (Transaction.transactionId tx0)]
    end
    ++
    match outgoingTxs with
    | [] => []
    | tx0 :: _ =>
        [Link.mk (m !! focusAddress) (m !! address)
                 (sumAmounts outgoingTxs) outgoing
                 (Transaction.transactionId tx0)]
    end.

Definition directLinks (focusAddress : string) (m : gmap string Node)
    (valid : list Transaction.t) : list Link.t :=
  flat_map (directLinksOf focusAddress m valid)
           (uniqueAddresses focusAddress valid).

(** [normalizeValue], with the two variables it closes over. *)
Definition normalizeValue (maxValue minValue : Q) (value : Q) : option Q :=
  if Qeq_bool maxValue minValue then Some 2
  else
    match Js.div (value - minValue) (maxValue - minValue) with
    | Some r => Some (1 + r * 4)
    | None => None
    end.

Definition started (st : ViewState) (count : nat)
    (ns : list Node) (ls : list Link.t) : ViewState :=
  mkView None true (totalTransactionCount st) count
         (Some (mkGraph ns ls
                  (Js.Math_max (List.map Link.value ls))
                  (Js.Math_min (List.map Link.value ls)))).

(** The body of the main effect, up to the creation of the simulation.
    The state that comes in is the one left by the previous render;
    the [simulation] of the result is the one this run created. *)
Definition graphEffect (transactions : list Transaction.t)
    (focusAddress : string) (exploredNodes : gset string)
    (limit : nat) (st : ViewState) : ViewState :=
  (* if (!svgRef.current || !containerRef.current) return *)
  if negb (svgMounted st) then
    mkView (error st) (isLoading st) (totalTransactionCount st)
           (displayedTransactionCount st) None
  else
  (* setIsLoading(true); stop the old simulation; setError(null) *)
  let st := mkView None true (totalTransactionCount st)
                   (displayedTransactionCount st) None in
  if (length transactions =? 0)%nat then
    mkView (Some msgNoData) false (totalTransactionCount st)
           (displayedTransactionCount st) None
  else
    let st := mkView (error st) (isLoading st) (length transactions)
                     (displayedTransactionCount st) None in
    let valid := validTransactions transactions in
    let limited := limitedTransactions limit transactions in
    let st := mkView (error st) (isLoading st) (totalTransactionCount st)
                     (length limited) None in
    if (length limited =? 0)%nat then
      mkView (Some msgNoValidData) false (totalTransactionCount st)
             (displayedTransactionCount st) None
    else
      let ns := mkNodes exploredNodes (nodeIds focusAddress limited) in
      let m := nodeMap ns in
      let ls := primaryLinks focusAddress m limited in
      if (length ls =? 0)%nat then
        if (0 <? length valid)%nat then
          let ls := ls ++ directLinks focusAddress m valid in
          if (length ls =? 0)%nat then
            mkView (Some msgNoConnections) (isLoading st)
                   (totalTransactionCount st)
                   (displayedTransactionCount st) None
          else started st (length limited) ns ls
        else
          mkView (Some msgNoConnections) (isLoading st)
                 (totalTransactionCount st)
                 (displayedTransactionCount st) None
      else started st (length limited) ns ls.

(** The effect as the component runs it for a detail level. *)
Definition build (transactions : list Transaction.t)
    (focusAddress : string) (exploredNodes : gset string)
    (detailLevel : DetailLevel) (st : ViewState) : ViewState :=
  graphEffect transactions focusAddress exploredNodes
              (transactionLimit detailLevel) st.

End TransactionGraph.

(** ** The force layout: tick listener, drag handlers, freeze timer *)

Module Layout.

(** A node once [d3.forceSimulation(nodes)] has initialised its
    [SimulationNodeDatum] fields; [fx] / [fy] are [None] while they
    are [undefined] or [null]. *)
Record SimNode := mkSim {
  datum : Node;
  x : Q;
  y : Q;
  vx : Q;
  vy : Q;
  fx : option Q;
  fy : option Q
}.

Record Simulation := mkSimulation {
  simNodes : list SimNode;
  alpha : Q;
  alphaTarget : Q;
  running : bool
}.

(** The drag event fields the handlers read. *)
Record DragEvent := mkDrag {
  active : nat;
  ev_x : Q;
  ev_y : Q
}.

Definition height : Q := 800.
Definition margin : Q := 100.

(** Settings of the simulation: [.alphaDecay(0.1)] in the component,
    d3's defaults for the other two. *)
Definition alphaDecay : Q := 1 # 10.
Definition alphaMin : Q := 1 # 1000.
Definition velocityDecay : Q := 6 # 10.

(** [Math.max(100, Math.min(dimension - 100, c))] *)
Definition clamp (dimension c : Q) : Q :=
  Qmax 100 (Qmin (dimension - 100) c).

(** The model part of the ["tick"] listener (the rest redraws). *)
Definition tickListener (width : Q) (ns : list SimNode) : list SimNode :=
  (fun d => mkSim (datum d) (clamp width (x d)) (clamp height (y d))
                  (vx d) (vy d) (fx d) (fy d)) <$> ns.

(** Modelled from the spec: d3-force is a dependency, not part of the
    sources.  A pinned node (one with [fx] / [fy] set) is excluded
    from physics-driven movement: at the end of a tick its coordinate
    is reset to the pin and its velocity to zero; a free node moves by
    its decayed velocity. *)
Definition integrate (d : SimNode) : SimNode :=
  let '(x', vx') :=
    match fx d with
    | None => let v := vx d * velocityDecay in (x d + v, v)
    | Some f => (f, 0)
    end in
  let '(y', vy') :=
    match fy d with
    | None => let v := vy d * velocityDecay in (y d + v, v)
    | Some f => (f, 0)
    end in
  mkSim (datum d) x' y' vx' vy' (fx d) (fy d).

Definition pin (d : SimNode) : option Q * option Q := (fx d, fy d).

Definition setPin (px py : option Q) (d : SimNode) : SimNode :=
  mkSim (datum d) (x d) (y d) (vx d) (vy d) px py.

(** [if (x) ...] on a number. *)
Definition truthyNum (q : Q) : bool := negb (Qeq_bool q 0).

(** The body of the [forEach] in the 2 s timer. *)
Definition freezeNode (d : SimNode) : SimNode :=
  if truthyNum (x d) && truthyNum (y d) then
    setPin (match fx d with None => Some (x d) | p => p end)
           (match fy d with None => Some (y d) | p => p end) d
  else d.

(** The timer callback: stop the simulation, pin what is not pinned. *)
Definition freeze (s : Simulation) : Simulation :=
  mkSimulation (freezeNode <$> simNodes s) (alpha s) (alphaTarget s) false.

(** The three drag handlers; [i] is the position of the dragged node
    object [d] in [nodes]. *)
Definition dragstarted (event : DragEvent) (i : nat) (s : Simulation)
  : Simulation :=
  let s := if (active event =? 0)%nat
           then mkSimulation (simNodes s) (alpha s) (3 # 10) true
           else s in
  mkSimulation
    (alter (fun d => setPin (Some (x d)) (Some (y d)) d) i (simNodes s))
    (alpha s) (alphaTarget s) (running s).

Definition dragged (event : DragEvent) (i : nat) (s : Simulation)
  : Simulation :=
  mkSimulation
    (alter (setPin (Some (ev_x event)) (Some (ev_y event))) i (simNodes s))
    (alpha s) (alphaTarget s) (running s).

Definition dragended (event : DragEvent) (i : nat) (s : Simulation)
  : Simulation :=
  if (active event =? 0)%nat
  then mkSimulation (simNodes s) (alpha s) 0 (running s)
  else s.

Section Forces.

(** The registered forces (link, charge, center, x, y, collision),
    applied in turn for a given alpha.  They are d3's, and compute
    with square roots; they stay abstract. *)
Variable forces : Q -> list SimNode -> list SimNode.

(** Modelled from the spec: one tick of d3's simulation: alpha
    moves towards its target, the forces act, and every node is
    integrated. *)
Definition d3_tick (s : Simulation) : Simulation :=
  let a := alpha s + (alphaTarget s - alpha s) * alphaDecay in
  mkSimulation (integrate <$> forces a (simNodes s))
               a (alphaTarget s) (running s).

(** One step of the running simulation's timer: d3's own tick, then
    the ["tick"] listener of the component; the timer stops once
    alpha has decayed below [alphaMin]. *)
Definition step (width : Q) (s : Simulation) : Simulation :=
  let s := d3_tick s in
  mkSimulation (tickListener width (simNodes s)) (alpha s)
               (alphaTarget s)
               (if Qlt_le_dec (alpha s) alphaMin then false
                else running s).

(** What can happen to a simulation once it is set up. *)
Inductive Event :=
| Tick
| Freeze
| DragStart (event : DragEvent) (i : nat)
| Drag (event : DragEvent) (i : nat)
| DragEnd (event : DragEvent) (i : nat).

Definition handle (width : Q) (s : Simulation) (e : Event)
  : Simulation :=
  match e with
  | Tick => step width s
  | Freeze => freeze s
  | DragStart event i => dragstarted event i s
  | Drag event i => dragged event i s
  | DragEnd event i => dragended event i s
  end.

Definition run (width : Q) (s : Simulation) (es : list Event)
  : Simulation :=
  fold_left (handle width) es s.

End Forces.

(** Events that are not a drag gesture on node [i]. *)
Definition leaves (i : nat) (e : Event) : Prop :=
  match e with
  | Tick | Freeze => True
  | DragStart _ j | Drag _ j | DragEnd _ j => i <> j
  end.

(** Forces act on positions and velocities; they never write a pin. *)
Definition keepsPins (forces : Q -> list SimNode -> list SimNode) : Prop :=
  forall a ns, pin <$> forces a ns = pin <$> ns.

Definition inBounds (width : Q) (d : SimNode) : Prop :=
  margin <= x d <= width - margin /\ margin <= y d <= height - margin.

(** The node at position [i] is pinned at [(px, py)]. *)
Definition pinnedAt (i : nat) (px py : Q) (s : Simulation) : Prop :=
  exists d, simNodes s !! i = Some d /\ fx d = Some px /\ fy d = Some py.

(** ... and its coordinates are the pin, clamped by the listener. *)
Definition settledAt (width : Q) (i : nat) (px py : Q) (s : Simulation)
  : Prop :=
  exists d, simNodes s !! i = Some d /\ fx d = Some px /\ fy d = Some py
            /\ x d = clamp width px /\ y d = clamp height py.

End Layout.

(** ** Concrete inputs used by the examples below *)

Module Samples.

Definition A : string := "0xA".
Definition B : string := "0xB".
Definition C : string := "0xC".

Definition tx (s t : string) (a : Q) (i : string) : Transaction.t :=
  Transaction.mk s t a "2024-01-01" i
                 (if String.eqb s A then outgoing else incoming) 0.

(** The state of a freshly mounted component. *)
Definition st0 : ViewState := mkView None false 0 0 None.


(** One incoming, one outgoing record. *)
Definition inOut : list Transaction.t :=
  [tx A B (5 # 2) "t1"; tx C A 4 "t2"].

(** The graph the effect builds from [inOut], and its second link. *)
Definition inOutGraph : Graph :=
  Eval vm_compute in
    match simulation (TransactionGraph.build inOut A ∅ medium st0) with
    | Some g => g
    | None => mkGraph [] [] None None
    end.

Definition inOutLink : Link.t :=
  Link.mk (Some (mkNode C false)) (Some (mkNode A false)) 4 incoming "t2".

(** Two hundred valid records. *)
Definition many : list Transaction.t := repeat (tx A B 1 "t") 200.

(** The graph the effect builds from [many] at the level low. *)
Definition manyGraph : Graph :=
  Eval vm_compute in
    match simulation (TransactionGraph.build many A ∅ low st0) with
    | Some g => g
    | None => mkGraph [] [] None None
    end.

(** Twenty-five records between two peers, then one that touches the
    focus address. *)
Definition cutOff : list Transaction.t :=
  repeat (tx B C 1 "t") 25 ++ [tx A B 1 "u"].

(** One record. *)
Definition single : list Transaction.t := [tx A B 4 "t1"].

(** A component that shows the message of an earlier run. *)
Definition shown (msg : string) : ViewState :=
  mkView (Some msg) false 0 0 None.

Definition node (i : string) (px py : Q) (p : option Q * option Q)
  : Layout.SimNode :=
  Layout.mkSim (mkNode i false) px py 0 0 (fst p) (snd p).

Definition free : option Q * option Q := (None, None).

(** A force that pushes every node to the right and down and shifts
    the whole layout, as a centering force does. *)
Definition drift (a : Q) (ns : list Layout.SimNode)
  : list Layout.SimNode :=
  (fun d => Layout.mkSim (Layout.datum d) (Layout.x d - 1) (Layout.y d - 1)
              (Layout.vx d + 10 * a) (Layout.vy d + 10 * a)
              (Layout.fx d) (Layout.fy d)) <$> ns.

Definition sim0 : Layout.Simulation :=
  Layout.mkSimulation
    [node A 400 400 free; node B 0 900 free; node C 650 300 free]
    1 0 true.

Definition at_ (px py : Q) : Layout.DragEvent := Layout.mkDrag 0 px py.

End Samples.

(** ** The rest of the graph component *)

Module GraphView.

(** [getConnectedNodes], which closes over [limitedTransactions]. *)
Definition getConnectedNodes (limited : list Transaction.t)
    (address : string) : list string :=
  List.map
    (fun t => if String.eqb (Transaction.source t) address
              then Transaction.target t else Transaction.source t)
    (List.filter
       (fun t => String.eqb (Transaction.source t) address
                 || String.eqb (Transaction.target t) address)
       limited).

(** [handleNodeClick]: the explored set after
    [setExploredNodes(prev => new Set([...prev, d.id]))], and the
    address passed to [onNodeClick]. *)
Definition handleNodeClick (d : Node) (exploredNodes : gset string)
  : gset string * string :=
  (exploredNodes ∪ {[ id d ]}, id d).

(** The effect on [focusAddress]: [new Set([focusAddress])]. *)
Definition resetExplored (focusAddress : string) : gset string :=
  {[ focusAddress ]}.

Section StrokeWidth.

(** [Math.log], on the positive arguments it is given here. *)
Variable Math_log : Q -> Q.

(** The stroke width of a link, at rest and under the pointer. *)
Definition strokeWidth (d : Link.t) : Q :=
  Qmin 3 (Qmax 1 (Math_log (Link.value d + 1))).

Definition hoverStrokeWidth (d : Link.t) : Q :=
  Qmin 5 (Qmax 2 (Math_log (Link.value d + 1) * (15 # 10))).

End StrokeWidth.

End GraphView.

(** ** The wallet route: the records it prepares for the graph

    [src/app/api/wallet/route.ts], from the enhanced transactions
    ([processedTransactions.result]) to the [graphTransactions] field of
    the response. *)

Module WalletRoute.

(** The fields of an [EnhancedTransaction] that the route reads here. *)
Record EnhancedTransaction := mkEnhanced {
  from : string;
  to : string;
  hash : string;
  valueInEth : Q;
  formattedDate : string;
  direction : Direction;
  gasCostEth : Q
}.

Definition zeroAddress : string :=
  "0x0000000000000000000000000000000000000000".

Definition sameAddress (a b : string) : bool :=
  String.eqb (Js.toLowerCase a) (Js.toLowerCase b).

(** The callback of [processedTransactions.result.map]; [None] is the
    [null] it returns for a record from an address to itself. *)
Definition graphTransaction (tx : EnhancedTransaction)
  : option Transaction.t :=
  let source := Js.or_string (from tx) zeroAddress in
  let target := Js.or_string (to tx) zeroAddress in
  if sameAddress source target then None
  else Some (Transaction.mk source target
               (Js.or_num (valueInEth tx) (1 # 10000))
               (formattedDate tx) (hash tx) (direction tx)
               (Js.or_num (gasCostEth tx) 0)).

(** [.filter(Boolean)] on a list of objects and [null]s. *)
Definition filterBoolean {X} (l : list (option X)) : list X :=
  flat_map (fun o => match o with Some v => [v] | None => [] end) l.

Definition graphTransactions (result : list EnhancedTransaction)
  : list Transaction.t :=
  filterBoolean (List.map graphTransaction result).

(** The callback of the [forEach] that fills [uniqueAddresses]. *)
Definition addPeers (address : string) (s : list string)
    (tx : EnhancedTransaction) : list string :=
  let s := if Js.truthy (from tx) && negb (sameAddress (from tx) address)
           then Js.add (from tx) s else s in
  if Js.truthy (to tx) && negb (sameAddress (to tx) address)
  then Js.add (to tx) s else s.

Definition uniqueAddresses (address : string)
    (result : list EnhancedTransaction) : list string :=
  fold_left (addPeers address) result [].

Definition incomingTxs (address : string)
    (result : list EnhancedTransaction) (connectedAddress : string)
  : list EnhancedTransaction :=
  List.filter
    (fun tx => sameAddress (from tx) connectedAddress
               && sameAddress (to tx) address)
    result.

Definition outgoingTxs (address : string)
    (result : list EnhancedTransaction) (connectedAddress : string)
  : list EnhancedTransaction :=
  List.filter
    (fun tx => sameAddress (from tx) address
               && sameAddress (to tx) connectedAddress)
    result.

(** [txs.reduce((sum, tx) => sum + tx.valueInEth, 0)] *)
Definition totalAmount (txs : list EnhancedTransaction) : Q :=
  fold_left (fun sum tx => sum + valueInEth tx) txs 0.

(** The records pushed for one connected address. *)
Definition connections (address : string)
    (result : list EnhancedTransaction) (connectedAddress : string)
  : list Transaction.t :=
  match incomingTxs address result connectedAddress with
  | [] => []
  | tx0 :: _ =>
      [Transaction.mk connectedAddress address
         (totalAmount (incomingTxs address result connectedAddress))
         (formattedDate tx0) (hash tx0) incoming 0]
  end
  ++
  match outgoingTxs address result connectedAddress with
  | [] => []
  | tx0 :: _ =>
      [Transaction.mk address connectedAddress
         (totalAmount (outgoingTxs address result connectedAddress))
         (formattedDate tx0) (hash tx0) outgoing 0]
  end.

Definition simplifiedGraphTransactions (address : string)
    (result : list EnhancedTransaction) : list Transaction.t :=
  flat_map (connections address result) (uniqueAddresses address result).

(** The record pushed when nothing was aggregated; [nowIso] is
    [new Date().toISOString()].  A direction is never falsy. *)
Definition lastResort (address nowIso : string)
    (graphTxs : list Transaction.t) : list Transaction.t :=
  match graphTxs with
  | [] => []
  | firstTx :: _ =>
      if negb (String.eqb (Transaction.source firstTx)
                          (Transaction.target firstTx))
      then
        [Transaction.mk
           (if String.eqb (Transaction.source firstTx) address
            then Transaction.source firstTx else address)
           (if String.eqb (Transaction.target firstTx) address
            then Transaction.target firstTx else address)
           (Js.or_num (Transaction.amount firstTx) (1 # 10000))
           (Js.or_string (Transaction.date firstTx) nowIso)
           (Js.or_string (Transaction.transactionId firstTx) "unknown")
           (Transaction.direction firstTx)
           (Js.or_num (Transaction.gasCost firstTx) 0)]
      else []
  end.

(** The [graphTransactions] field of the response. *)
Definition responseGraphTransactions (address nowIso : string)
    (result : list EnhancedTransaction) : list Transaction.t :=
  let graphTxs := graphTransactions result in
  let simplified := simplifiedGraphTransactions address result in
  let simplified :=
    if (length simplified =? 0)%nat && (0 <? length graphTxs)%nat
    then simplified ++ lastResort address nowIso graphTxs
    else simplified in
  if (0 <? length simplified)%nat then simplified else graphTxs.

(** The ordered pair of ends of a record. *)
Definition ends (r : Transaction.t) : string * string :=
  (Transaction.source r, Transaction.target r).

End WalletRoute.

(** ** The transactions page: address check, paging, cooldown, cache

    [src/app/transactions/page.tsx]. *)

Module Page.

Definition isHexDigit (c : ascii) : bool :=
  let n := nat_of_ascii c in
  ((48 <=? n) && (n <=? 57) || (97 <=? n) && (n <=? 102)
   || (65 <=? n) && (n <=? 70))%nat.

Fixpoint allHex (s : string) : bool :=
  match s with
  | EmptyString => true
  | String c r => isHexDigit c && allHex r
  end.

(** [/^0x[a-fA-F0-9]{40}$/.test(address)] *)
Definition isValidEthereumAddress (address : string) : bool :=
  match address with
  | String "0" (String "x" r) => (String.length r =? 40)%nat && allHex r
  | _ => false
  end.

(** The paging state.  [pageSize] is one of the options of the select
    (10, 25, 50, 100); a division by a zero page size is not modelled. *)
Record Paging := mkPaging {
  currentPage : Z;
  pageSize : Z;
  totalPages : Z
}.

(** The effect on [transactions] and [pageSize]:
    [Math.ceil(transactions.length / pageSize)], or 1 on no record. *)
Definition totalPagesFor (transactions : list Transaction.t) (size : Z) : Z :=
  if (0 <? length transactions)%nat
  then Qceiling (inject_Z (Z.of_nat (length transactions)) / inject_Z size)
  else 1%Z.

Definition syncTotalPages (transactions : list Transaction.t) (p : Paging)
  : Paging :=
  mkPaging (currentPage p) (pageSize p)
           (totalPagesFor transactions (pageSize p)).

Definition handlePageChange (page : Z) (p : Paging) : Paging :=
  if ((1 <=? page) && (page <=? totalPages p))%Z
  then mkPaging page (pageSize p) (totalPages p)
  else p.

Definition handlePageSizeChange (size : Z) (p : Paging) : Paging :=
  mkPaging 1 size (totalPages p).

Definition getCurrentPageTransactions (transactions : list Transaction.t)
    (p : Paging) : list Transaction.t :=
  let startIndex := ((currentPage p - 1) * pageSize p)%Z in
  let endIndex := (startIndex + pageSize p)%Z in
  Js.slice transactions startIndex endIndex.

(** The cooldown state; [timerRunning] tells whether the interval set
    by [startCooldown] is still installed. *)
Record Cooldown := mkCooldown {
  searchCooldown : bool;
  cooldownSeconds : Z;
  timerRunning : bool
}.

(** [startCooldown(seconds)]: any earlier timer is cleared and a new one
    is installed. *)
Definition startCooldown (seconds : Z) (c : Cooldown) : Cooldown :=
  mkCooldown true seconds true.

(** The callback of the interval: the updater passed to
    [setCooldownSeconds], with the [clearInterval] and
    [setSearchCooldown(false)] it performs. *)
Definition intervalCallback (c : Cooldown) : Cooldown :=
  if (cooldownSeconds c <=? 1)%Z then mkCooldown false 0 false
  else mkCooldown (searchCooldown c) (cooldownSeconds c - 1) true.

(** The cleanup of the effect on [searchParams, handleSearch,
    cooldownTimer] (lines 301-315): [clearInterval(cooldownTimer)]. *)
Definition effectCleanup (c : Cooldown) : Cooldown :=
  mkCooldown (searchCooldown c) (cooldownSeconds c) false.

(** Whether a render re-creates [handleSearch]: [searchCooldown] and
    [cooldownSeconds] are among the dependencies of its [useCallback]. *)
Definition handleSearchChanged (c c' : Cooldown) : bool :=
  negb (Bool.eqb (searchCooldown c) (searchCooldown c'))
  || negb (cooldownSeconds c =? cooldownSeconds c')%Z.

(** One firing of the interval installed by [startCooldown], and the
    render that follows it: when [handleSearch] is re-created the
    effect that depends on it is cleaned up, which clears the
    interval. *)
Definition intervalTick (c : Cooldown) : Cooldown :=
  if timerRunning c then
    let c' := intervalCallback c in
    if handleSearchChanged c c' then effectCleanup c' else c'
  else c.

Fixpoint ticks (n : nat) (c : Cooldown) : Cooldown :=
  match n with
  | O => c
  | S n => ticks n (intervalTick c)
  end.

(** What the two guards of [handleSearch] on the cooldown decide. *)
Inductive SearchGuard :=
| InCooldown
| TooSoon (waitTime : Z) (c : Cooldown)
| Proceed.

(** The guards of [handleSearch] that follow the address check: the
    search is refused while a cooldown is on (lines 159-163); it is
    refused, and a cooldown of [waitTime] seconds started, within two
    seconds of the last search (lines 166-172); otherwise it goes on. *)
Definition throttle (now lastSearchTime : Z) (c : Cooldown) : SearchGuard :=
  if searchCooldown c then InCooldown
  else
    let timeSinceLastSearch := (now - lastSearchTime)%Z in
    if (timeSinceLastSearch <? 2000)%Z then
      let waitTime :=
        Qceiling (inject_Z (2000 - timeSinceLastSearch) / 1000) in
      TooSoon waitTime (startCooldown waitTime c)
    else Proceed.

Section SearchCache.

(** The response kept for an address. *)
Variable Data : Type.

Record CacheEntry := mkEntry {
  data : Data;
  timestamp : Z
}.

(** A [Map<string, CacheEntry>]: its entries in insertion order. *)
Definition Cache : Type := list (string * CacheEntry).

Fixpoint mapSet (k : string) (v : CacheEntry) (m : Cache) : Cache :=
  match m with
  | [] => [(k, v)]
  | (k', v') :: r =>
      if String.eqb k' k then (k, v) :: r else (k', v') :: mapSet k v r
  end.

Fixpoint mapGet (k : string) (m : Cache) : option CacheEntry :=
  match m with
  | [] => None
  | (k', v') :: r => if String.eqb k' k then Some v' else mapGet k r
  end.

Definition mapDelete (k : string) (m : Cache) : Cache :=
  List.filter (fun e => negb (String.eqb (fst e) k)) m.

(** The updater passed to [setSearchCache]: store the response under the
    address and, above ten entries, delete the entry that sorts first by
    timestamp.  (On no entry [sort(...)[0]] is [undefined]; the map then
    holds at least eleven.) *)
Definition cacheStore (address : string) (d : Data) (now : Z)
    (prev : Cache) : Cache :=
  let newCache := mapSet address (mkEntry d now) prev in
  if (10 <? length newCache)%nat then
    match Js.sortBy (fun e => timestamp (snd e)) newCache with
    | [] => newCache
    | oldest :: _ => mapDelete (fst oldest) newCache
    end
  else newCache.

End SearchCache.

End Page.

(** ** More concrete inputs *)

Module MoreSamples.

Import WalletRoute.

Definition addr : string := "0x00000000000000000000000000000000000000aa".
Definition peer : string := "0x00000000000000000000000000000000000000bb".
Definition other : string := "0x00000000000000000000000000000000000000cc".

Definition etx (f t : string) (v : Q) (h : string) : EnhancedTransaction :=
  mkEnhanced f t h v "1/1/2024"
             (if String.eqb f addr then outgoing else incoming) (1 # 1000).

(** Two payments to a peer, one received from it, one from another. *)
Definition history : list EnhancedTransaction :=
  [etx addr peer 1 "h1"; etx addr peer 2 "h2";
   etx peer addr (1 # 2) "h3"; etx other addr 4 "h4"].

(** A wallet whose only transaction created a contract ([to] empty). *)
Definition creation : list EnhancedTransaction := [etx addr "" 0 "h0"].

Definition pagingOf (n : nat) (size : Z) : Page.Paging :=
  Page.syncTotalPages (repeat (Samples.tx Samples.A Samples.B 1 "t") n)
                      (Page.mkPaging 1 size 1).

Definition linear (v : Q) : Q := v - 1.

(** The graph drawn from the route's response for [history]. *)
Definition historyGraph : Graph :=
  Eval vm_compute in
    match simulation
            (TransactionGraph.build
               (responseGraphTransactions addr "now" history)
               addr ∅ medium Samples.st0) with
    | Some g => g
    | None => mkGraph [] [] None None
    end.




(** Search caches whose responses are plain numbers. *)
Definition entry (k : string) (d : nat) (t : Z)
  : string * Page.CacheEntry nat :=
  (k, Page.mkEntry nat d t).

Definition twoEntries : Page.Cache nat :=
  [entry "0xA" 1 10; entry "0xB" 2 20].

Definition tenEntries : Page.Cache nat :=
  [entry "0x0" 0 50; entry "0x1" 1 40; entry "0x2" 2 30; entry "0x3" 3 35;
   entry "0x4" 4 60; entry "0x5" 5 30; entry "0x6" 6 70; entry "0x7" 7 80;
   entry "0x8" 8 90; entry "0x9" 9 95].

(** Node B of [sim0] after one tick and the freeze. *)
Definition frozenB : Layout.SimNode :=
  Eval vm_compute in
    match Layout.simNodes
            (Layout.freeze (Layout.step Samples.drift 1000 Samples.sim0))
          !! 1%nat with
    | Some d => d
    | None => Samples.node Samples.B 0 0 Samples.free
    end.

(** Its second link: the aggregated payments to [peer]. *)
Definition historyLink : Link.t :=
  Link.mk (Some (mkNode addr false)) (Some (mkNode peer false)) 3
          outgoing "h1".

End MoreSamples.

(** ** Properties of the builder *)

Module BuilderFacts.
Import TransactionGraph.

Lemma has_In (s : list string) (k : string) :
  Js.has s k = true <-> In k s.
Proof.
  unfold Js.has. rewrite existsb_exists. split.
  - intros (k' & Hin & Heq). apply String.eqb_eq in Heq. now subst.
  - intros Hin. exists k. split; [assumption | apply String.eqb_refl].
Qed.

Lemma add_In (k k' : string) (s : list string) :
  In k' (Js.add k s) <-> k' = k \/ In k' s.
Proof.
  unfold Js.add. destruct (Js.has s k) eqn:Hh.
  - apply has_In in Hh. split; [tauto | intros [-> | ?]; assumption].
  - rewrite in_app_iff. simpl. intuition.
Qed.

Lemma addEnds_mono ids tx k : In k ids -> In k (addEnds ids tx).
Proof.
  unfold addEnds. intros Hk.
  destruct (Js.truthy (Transaction.source tx)),
           (Js.truthy (Transaction.target tx));
    repeat (apply add_In; right); assumption.
Qed.

Lemma fold_addEnds_mono txs : forall ids k,
  In k ids -> In k (fold_left addEnds txs ids).
Proof.
  induction txs as [|tx txs IH]; intros ids k Hk; simpl; [assumption|].
  apply IH, addEnds_mono, Hk.
Qed.

Lemma isValid_spec tx :
  isValid tx = true <->
  Transaction.source tx <> "" /\ Transaction.target tx <> "" /\
  Transaction.source tx <> Transaction.target tx.
Proof.
  unfold isValid, Js.truthy.
  rewrite !andb_true_iff, !negb_true_iff, !String.eqb_neq. tauto.
Qed.

Lemma fold_addEnds_ends txs : forall ids tx,
  In tx txs -> isValid tx = true ->
  In (Transaction.source tx) (fold_left addEnds txs ids) /\
  In (Transaction.target tx) (fold_left addEnds txs ids).
Proof.
  induction txs as [|t txs IH]; intros ids tx Hin Hv; [destruct Hin|].
  destruct Hin as [-> | Hin]; [|now apply IH].
  simpl. apply isValid_spec in Hv as (Hs & Ht & _).
  apply String.eqb_neq in Hs, Ht.
  split; apply fold_addEnds_mono; unfold addEnds, Js.truthy;
    rewrite Hs, Ht; simpl.
  - apply add_In. right. apply add_In. now left.
  - apply add_In. now left.
Qed.

Lemma nodeIds_focus focus limited : In focus (nodeIds focus limited).
Proof.
  apply (fold_addEnds_mono limited). apply add_In. now left.
Qed.

Lemma nodeIds_ends focus limited tx :
  In tx limited -> isValid tx = true ->
  In (Transaction.source tx) (nodeIds focus limited) /\
  In (Transaction.target tx) (nodeIds focus limited).
Proof. apply fold_addEnds_ends. Qed.

(** Lookups in the map built by [nodes.forEach(node => nodeMap.set(...))]. *)
Lemma fold_insert_Some ns : forall (m : gmap string Node) k n,
  fold_left (fun m n => <[id n := n]> m) ns m !! k = Some n ->
  (In n ns /\ id n = k) \/ m !! k = Some n.
Proof.
  induction ns as [|a ns IH]; intros m k n Hl; simpl in *; [now right|].
  apply IH in Hl as [[Hin Hid] | Hl]; [left; split; auto|].
  destruct (decide (id a = k)) as [Heq | Hne].
  - rewrite <- Heq, lookup_insert_eq in Hl. injection Hl as ->.
    left. split; [now left | assumption].
  - rewrite lookup_insert_ne in Hl by assumption. now right.
Qed.

Lemma fold_insert_is_Some ns : forall (m : gmap string Node) k,
  (exists n, In n ns /\ id n = k) \/ is_Some (m !! k) ->
  is_Some (fold_left (fun m n => <[id n := n]> m) ns m !! k).
Proof.
  induction ns as [|a ns IH]; intros m k H; simpl.
  - destruct H as [(n & [] & _) | H]; assumption.
  - apply IH. destruct H as [(n & [-> | Hin] & Hid) | H].
    + right. rewrite <- Hid, lookup_insert_eq. now eexists.
    + left. now exists n.
    + right. destruct (decide (id a = k)) as [Heq | Hne].
      * rewrite <- Heq, lookup_insert_eq. now eexists.
      * now rewrite lookup_insert_ne.
Qed.

Lemma nodeMap_Some ns k n :
  nodeMap ns !! k = Some n -> In n ns /\ id n = k.
Proof.
  intros H. apply fold_insert_Some in H as [H | H]; [assumption|].
  rewrite lookup_empty in H. discriminate.
Qed.

Lemma mapHas_nodes explored ids k :
  In k ids -> mapHas (nodeMap (mkNodes explored ids)) k = true.
Proof.
  intros Hin. unfold mapHas. apply bool_decide_eq_true.
  apply fold_insert_is_Some. left.
  exists (mkNode k (bool_decide (k ∈ explored))). split; [|reflexivity].
  unfold mkNodes. apply in_map_iff. now exists k.
Qed.

Lemma validTransactions_valid txs tx :
  In tx (validTransactions txs) -> isValid tx = true.
Proof. unfold validTransactions. rewrite filter_In. tauto. Qed.

Lemma In_firstn {X} (n : nat) (l : list X) (a : X) :
  In a (firstn n l) -> In a l.
Proof.
  intros Hin. rewrite <- (firstn_skipn n l). apply in_or_app. now left.
Qed.

Lemma limited_valid limit txs tx :
  In tx (limitedTransactions limit txs) -> isValid tx = true.
Proof.
  intros Hin. apply (validTransactions_valid txs).
  apply (In_firstn limit). exact Hin.
Qed.

Lemma filter_all {X} (p : X -> bool) (l : list X) :
  (forall a, In a l -> p a = true) -> List.filter p l = l.
Proof.
  induction l as [|a l IH]; intros H; simpl; [reflexivity|].
  rewrite (H a) by now left. f_equal. apply IH. intros b Hb.
  apply H. now right.
Qed.

(** The endpoint filter of the primary pass keeps every record. *)
Lemma primaryLinks_all focus explored limit txs :
  let limited := limitedTransactions limit txs in
  let m := nodeMap (mkNodes explored (nodeIds focus limited)) in
  primaryLinks focus m limited = List.map (linkOf focus m) limited.
Proof.
  intros limited m. unfold primaryLinks. f_equal. apply filter_all.
  intros tx Hin.
  destruct (nodeIds_ends focus limited tx Hin (limited_valid _ _ _ Hin))
    as [Hs Ht].
  unfold m. now rewrite !mapHas_nodes.
Qed.

Lemma length_zero_iff_nil {X} (l : list X) :
  (length l =? 0)%nat = true <-> l = [].
Proof. destruct l; simpl; split; intros H; congruence. Qed.

(** While the [svg] is out of the document the effect returns at its
    first line. *)
Lemma graphEffect_unmounted txs focus explored limit st :
  svgMounted st = false ->
  graphEffect txs focus explored limit st =
    mkView (error st) (isLoading st) (totalTransactionCount st)
           (displayedTransactionCount st) None.
Proof. intros H. unfold graphEffect. now rewrite H. Qed.

(** The three ways the effect can end once past its first guard. *)
Lemma graphEffect_cases txs focus explored limit st :
  svgMounted st = true ->
  let limited := limitedTransactions limit txs in
  let ns := mkNodes explored (nodeIds focus limited) in
  let m := nodeMap ns in
  (txs = [] /\
   graphEffect txs focus explored limit st =
     mkView (Some msgNoData) false (totalTransactionCount st)
            (displayedTransactionCount st) None)
  \/
  (txs <> [] /\ limited = [] /\
   graphEffect txs focus explored limit st =
     mkView (Some msgNoValidData) false (length txs) 0 None)
  \/
  (txs <> [] /\ limited <> [] /\
   graphEffect txs focus explored limit st =
     started (mkView None true (length txs) (length limited) None)
             (length limited) ns (List.map (linkOf focus m) limited)).
Proof.
  intros Hm limited ns m. unfold graphEffect. rewrite Hm. cbv zeta.
  cbn [negb].
  destruct (length txs =? 0)%nat eqn:H0.
  { left. apply length_zero_iff_nil in H0. now split. }
  right.
  assert (txs <> []) as Hne
    by (intros ->; discriminate H0).
  fold limited.
  destruct (length limited =? 0)%nat eqn:H1.
  { left. apply length_zero_iff_nil in H1. rewrite H1. now repeat split. }
  right.
  assert (limited <> []) as Hl
    by (intros E; rewrite E in H1; discriminate H1).
  fold ns. fold m. unfold m, ns, limited.
  rewrite primaryLinks_all, length_map. fold limited. rewrite H1.
  now repeat split.
Qed.

End BuilderFacts.

Module BuildResult.
Import TransactionGraph BuilderFacts.

(** A run creates a simulation only when the [svg] is mounted. *)
Lemma simulation_mounted txs focus explored limit st g :
  simulation (graphEffect txs focus explored limit st) = Some g ->
  svgMounted st = true.
Proof.
  intros Hs. destruct (svgMounted st) eqn:Hm; [reflexivity|].
  rewrite (graphEffect_unmounted _ _ _ _ _ Hm) in Hs. discriminate Hs.
Qed.

(** What a run that created a simulation handed to it. *)
Lemma simulation_Some txs focus explored limit st g :
  simulation (graphEffect txs focus explored limit st) = Some g ->
  let limited := limitedTransactions limit txs in
  limited <> [] /\
  nodes g = mkNodes explored (nodeIds focus limited) /\
  links g = List.map (linkOf focus (nodeMap (nodes g))) limited /\
  maxValue g = Js.Math_max (List.map Link.value (links g)) /\
  minValue g = Js.Math_min (List.map Link.value (links g)).
Proof.
  intros Hs limited.
  pose proof (simulation_mounted _ _ _ _ _ _ Hs) as Hm.
  destruct (graphEffect_cases txs focus explored limit st Hm)
    as [[_ E] | [(_ & _ & E) | (_ & Hl & E)]];
    rewrite E in Hs; simpl in Hs; try discriminate Hs.
  injection Hs as <-. simpl. now repeat split.
Qed.

(** A run past the first guard with a record left after the limit
    creates a simulation. *)
Lemma simulation_started txs focus explored limit st :
  svgMounted st = true ->
  limitedTransactions limit txs <> [] ->
  error (graphEffect txs focus explored limit st) = None /\
  exists g, simulation (graphEffect txs focus explored limit st) = Some g.
Proof.
  intros Hm Hl.
  destruct (graphEffect_cases txs focus explored limit st Hm)
    as [[Ht E] | [(_ & Hn & E) | (_ & _ & E)]].
  - subst txs. now destruct limit.
  - contradiction.
  - rewrite E. simpl. split; [reflexivity | now eexists].
Qed.

(** The message that suggests a different address is never set. *)
Lemma never_msgNoConnections txs focus explored limit st :
  svgMounted st = true ->
  error (graphEffect txs focus explored limit st) <> Some msgNoConnections.
Proof.
  intros Hm.
  destruct (graphEffect_cases txs focus explored limit st Hm)
    as [[_ E] | [(_ & _ & E) | (_ & _ & E)]];
    rewrite E; simpl; discriminate.
Qed.

(** The links handed to the simulation, record by record. *)
Lemma links_per_record txs focus explored limit st g :
  simulation (graphEffect txs focus explored limit st) = Some g ->
  Forall2
    (fun tx l =>
       (id <$> Link.source l) = Some (Transaction.source tx)
       /\ (id <$> Link.target l) = Some (Transaction.target tx)
       /\ Link.value l = Js.or_num (Transaction.amount tx) (1 # 10000)
       /\ Link.direction l
          = (if String.eqb (Transaction.source tx) focus
             then outgoing else incoming)
       /\ Link.transactionId l = Transaction.transactionId tx)
    (limitedTransactions limit txs)
    (links g).
Proof.
  intros Hg.
  apply simulation_Some in Hg as (_ & Hn & Hlinks & _).
  rewrite Hlinks.
  assert (forall tx,
            In tx (limitedTransactions limit txs) ->
            isValid tx = true) as Hv
    by (intros tx; apply limited_valid).
  assert (forall tx,
            In tx (limitedTransactions limit txs) ->
            In (Transaction.source tx) (id <$> nodes g)
            /\ In (Transaction.target tx) (id <$> nodes g)) as He.
  { intros tx Hin. rewrite Hn.
    destruct (nodeIds_ends focus _ tx Hin (Hv tx Hin)) as [Hs Ht].
    unfold mkNodes.
    split; apply in_map_iff; eexists (mkNode _ _); split;
      try reflexivity; apply in_map_iff; eexists; split;
      try reflexivity; eassumption. }
  revert He. generalize (nodes g) as ns.
  generalize (limitedTransactions limit txs) as l.
  intros l ns He. clear - He.
  induction l as [|tx l IH]; simpl; constructor.
  - destruct (He tx (or_introl eq_refl)) as [Hs Ht].
    apply in_map_iff in Hs as (s & Ids & Is), Ht as (t & Idt & It).
    assert (forall k n, In n ns -> id n = k ->
                        id <$> (nodeMap ns !! k) = Some k) as Hlook.
    { intros k n Hin Hid.
      destruct (fold_insert_is_Some ns ∅ k) as [n' Hn'].
      { left. now exists n. }
      unfold nodeMap. rewrite Hn'. simpl. f_equal.
      now apply nodeMap_Some in Hn'. }
    simpl. rewrite (Hlook _ s Is Ids), (Hlook _ t It Idt). now repeat split.
  - apply IH. intros tx' Hin. apply He. now right.
Qed.

Lemma limit_positive lvl : (0 < transactionLimit lvl)%nat.
Proof. destruct lvl; simpl; lia. Qed.

Lemma limited_nonempty lvl txs tx :
  In tx txs -> isValid tx = true ->
  limitedTransactions (transactionLimit lvl) txs <> [].
Proof.
  intros Hin Hv. unfold limitedTransactions.
  assert (In tx (validTransactions txs)) as Hin'
    by (apply filter_In; now split).
  destruct (validTransactions txs) as [|v vs]; [destruct Hin'|].
  pose proof (limit_positive lvl) as Hp.
  destruct (transactionLimit lvl); [lia | discriminate].
Qed.

End BuildResult.

Import TransactionGraph.





(** C2, as stated, fails on twenty-five records between two peers
    followed by one valid record that touches the focus address, at the
    level low: the effect creates a simulation whose twenty-five links
    are those of the first twenty-five records, the focus node is among
    the nodes, and no link has it at either end.  No fallback joined
    the focus node to a peer. *)
Lemma focus_cut_off_by_limit :
  (exists tx, In tx Samples.cutOff /\ isValid tx = true
              /\ Transaction.source tx = Samples.A)
  /\ exists g,
       simulation (build Samples.cutOff Samples.A ∅ low Samples.st0) = Some g
       /\ In (mkNode Samples.A false) (nodes g)
       /\ length (links g) = 25%nat
       /\ Forall (fun l => (id <$> Link.source l) = Some Samples.B
                           /\ (id <$> Link.target l) = Some Samples.C)
                 (links g).
Proof.
  split.
  { exists (Samples.tx Samples.A Samples.B 1 "u").
    split; [|now split]. unfold Samples.cutOff. apply in_or_app.
    right. now left. }
  eexists. split; [vm_compute; reflexivity|].
  split; [now left|]. split; [reflexivity|].
  repeat constructor.
Qed.

(** C2, amended: on a component that shows no error, an input with at
    least one valid record never ends in the NoValidConnections
    failure.  No fallback is involved: the effect creates a simulation
    whose links are, in order, one per record kept by the limit, each
    joining the nodes of its record's source and target with the
    record's amount (0.0001 when it is zero), direction and transaction
    id; so at least one link is emitted, and the focus node is joined
    to a peer whenever a record that touches the focus address is among
    the records kept by the limit. *)
Theorem valid_record_never_NoValidConnections
    txs focus explored detailLevel st :
  svgMounted st = true ->
  (exists tx, In tx txs /\ isValid tx = true) ->
  let limited := limitedTransactions (transactionLimit detailLevel) txs in
  let r := build txs focus explored detailLevel st in
  error r = None
  /\ buildError r <> Some NoValidConnections
  /\ exists g,
       simulation r = Some g
       /\ links g <> []
       /\ links g = primaryLinks focus (nodeMap (nodes g)) limited
       /\ Forall2
            (fun tx l =>
               (id <$> Link.source l) = Some (Transaction.source tx)
               /\ (id <$> Link.target l) = Some (Transaction.target tx)
               /\ Link.value l = Js.or_num (Transaction.amount tx) (1 # 10000)
               /\ Link.direction l
                  = (if String.eqb (Transaction.source tx) focus
                     then outgoing else incoming)
               /\ Link.transactionId l = Transaction.transactionId tx)
            limited (links g)
       /\ (forall tx, In tx limited ->
             Transaction.source tx = focus \/ Transaction.target tx = focus ->
             exists l, In l (links g)
               /\ ((id <$> Link.source l) = Some focus
                   \/ (id <$> Link.target l) = Some focus)).
Proof.
  intros Hm (tx & Hin & Hv) limited r. unfold r, build.
  pose proof (BuildResult.limited_nonempty detailLevel txs tx Hin Hv) as Hl.
  destruct (BuildResult.simulation_started txs focus explored
              (transactionLimit detailLevel) st Hm Hl) as [He [g Hg]].
  split; [exact He|].
  split; [unfold buildError; rewrite He; discriminate|].
  exists g. split; [exact Hg|].
  pose proof (BuildResult.links_per_record _ _ _ _ _ _ Hg) as Hper.
  apply BuildResult.simulation_Some in Hg as (_ & Hn & Hlinks & _).
  split.
  { rewrite Hlinks. intros E. apply map_eq_nil in E. contradiction. }
  split.
  { rewrite Hlinks at 1. rewrite Hn. symmetry.
    apply BuilderFacts.primaryLinks_all. }
  split; [exact Hper|].
  intros tx' Hin' Htouch. fold limited in Hper.
  clear - Hper Hin' Htouch.
  induction Hper as [|t l ts ls Hhd _ IH]; [destruct Hin'|].
  destruct Hin' as [-> | Hin'].
  - exists l. split; [now left|].
    destruct Hhd as (Hs & Ht & _).
    destruct Htouch as [<- | <-]; [left; exact Hs | right; exact Ht].
  - destruct (IH Hin') as (l' & Hl' & H). exists l'. split; [now right|exact H].
Qed.

Lemma valid_record_never_NoValidConnections_witness :
  let limited := limitedTransactions (transactionLimit medium) Samples.inOut in
  let r := build Samples.inOut Samples.A ∅ medium Samples.st0 in
  error r = None
  /\ buildError r <> Some NoValidConnections
  /\ exists g,
       simulation r = Some g
       /\ links g <> []
       /\ links g = primaryLinks Samples.A (nodeMap (nodes g)) limited
       /\ Forall2
            (fun tx l =>
               (id <$> Link.source l) = Some (Transaction.source tx)
               /\ (id <$> Link.target l) = Some (Transaction.target tx)
               /\ Link.value l = Js.or_num (Transaction.amount tx) (1 # 10000)
               /\ Link.direction l
                  = (if String.eqb (Transaction.source tx) Samples.A
                     then outgoing else incoming)
               /\ Link.transactionId l = Transaction.transactionId tx)
            limited (links g)
       /\ (forall tx, In tx limited ->
             Transaction.source tx = Samples.A
             \/ Transaction.target tx = Samples.A ->
             exists l, In l (links g)
               /\ ((id <$> Link.source l) = Some Samples.A
                   \/ (id <$> Link.target l) = Some Samples.A)).
Proof.
  apply (valid_record_never_NoValidConnections
           Samples.inOut Samples.A ∅ medium Samples.st0).
  - reflexivity.
  - exists (Samples.tx Samples.C Samples.A 4 "t2").
    split; [right; now left | reflexivity].
Defined.

(** C10: on the records kept by the limit, the endpoint filter of the
    primary pass rejects nothing, so the pass emits exactly one link per
    record; when a record is left after the limit the list of links is
    not empty, the guard of the fallback branch is false, and the
    effect, once past its first guard (no error is shown), creates the
    simulation on exactly these links. *)
Theorem primary_pass_one_link_per_record txs focus explored limit st :
  let limited := limitedTransactions limit txs in
  let m := nodeMap (mkNodes explored (nodeIds focus limited)) in
  limited <> [] ->
  svgMounted st = true ->
  List.filter (fun t => mapHas m (Transaction.source t)
                        && mapHas m (Transaction.target t)) limited
    = limited
  /\ length (primaryLinks focus m limited) = length limited
  /\ (length (primaryLinks focus m limited) =? 0)%nat = false
  /\ error (graphEffect txs focus explored limit st) = None
  /\ exists g, simulation (graphEffect txs focus explored limit st) = Some g
               /\ links g = primaryLinks focus m limited.
Proof.
  intros limited m Hl Hm.
  pose proof (BuilderFacts.primaryLinks_all focus explored limit txs) as Hp.
  cbv zeta in Hp. fold limited in Hp. fold m in Hp.
  assert (length (primaryLinks focus m limited) = length limited) as Hlen
    by (rewrite Hp; apply length_map).
  split.
  { apply BuilderFacts.filter_all. intros tx Hin.
    destruct (BuilderFacts.nodeIds_ends focus limited tx Hin
                (BuilderFacts.limited_valid _ _ _ Hin)) as [Hs Ht].
    unfold m. now rewrite !BuilderFacts.mapHas_nodes. }
  split; [exact Hlen|]. split.
  { rewrite Hlen. destruct limited; [contradiction | reflexivity]. }
  destruct (BuildResult.simulation_started txs focus explored limit st Hm Hl)
    as [He [g Hg]].
  split; [exact He|]. exists g. split; [exact Hg|].
  apply BuildResult.simulation_Some in Hg as (_ & Hn & Hlinks & _).
  rewrite Hlinks, Hn, Hp. reflexivity.
Qed.

Lemma primary_pass_one_link_per_record_witness :
  let limited := limitedTransactions 25 Samples.many in
  let m := nodeMap (mkNodes ∅ (nodeIds Samples.A limited)) in
  List.filter (fun t => mapHas m (Transaction.source t)
                        && mapHas m (Transaction.target t)) limited
    = limited
  /\ length (primaryLinks Samples.A m limited) = length limited
  /\ (length (primaryLinks Samples.A m limited) =? 0)%nat = false
  /\ error (graphEffect Samples.many Samples.A ∅ 25 Samples.st0) = None
  /\ exists g,
       simulation (graphEffect Samples.many Samples.A ∅ 25 Samples.st0)
         = Some g
       /\ links g = primaryLinks Samples.A m limited.
Proof.
  apply (primary_pass_one_link_per_record
           Samples.many Samples.A ∅ 25%nat Samples.st0).
  - vm_compute. discriminate.
  - reflexivity.
Defined.

(** C5: in every graph the effect hands to the simulation, each link
    holds two node objects of the emitted node list, and their ids
    differ. *)
Theorem links_join_distinct_emitted_nodes
    txs focus explored detailLevel st g :
  simulation (build txs focus explored detailLevel st) = Some g ->
  forall l, In l (links g) ->
  exists s t,
    Link.source l = Some s /\ Link.target l = Some t
    /\ In s (nodes g) /\ In t (nodes g)
    /\ id s <> id t.
Proof.
  intros Hg l Hl. unfold build in Hg.
  apply BuildResult.simulation_Some in Hg as (_ & Hn & Hlinks & _).
  rewrite Hlinks in Hl. apply in_map_iff in Hl as (tx & <- & Hin).
  pose proof (BuilderFacts.limited_valid _ _ _ Hin) as Hv.
  destruct (BuilderFacts.nodeIds_ends focus _ tx Hin Hv) as [Hs Ht].
  pose proof (BuilderFacts.mapHas_nodes explored _ _ Hs) as Ms.
  pose proof (BuilderFacts.mapHas_nodes explored _ _ Ht) as Mt.
  rewrite <- Hn in Ms, Mt. unfold mapHas in Ms, Mt.
  apply bool_decide_eq_true in Ms as [s Es], Mt as [t Et].
  exists s, t. simpl. split; [exact Es|]. split; [exact Et|].
  apply BuilderFacts.nodeMap_Some in Es as [Is Ids], Et as [It Idt].
  split; [exact Is|]. split; [exact It|].
  rewrite Ids, Idt. now apply BuilderFacts.isValid_spec in Hv.
Qed.

Lemma links_join_distinct_emitted_nodes_witness :
  exists s t,
    Link.source Samples.inOutLink = Some s
    /\ Link.target Samples.inOutLink = Some t
    /\ In s (nodes Samples.inOutGraph) /\ In t (nodes Samples.inOutGraph)
    /\ id s <> id t.
Proof.
  apply (links_join_distinct_emitted_nodes
           Samples.inOut Samples.A ∅ medium Samples.st0 Samples.inOutGraph).
  - vm_compute. reflexivity.
  - vm_compute. right. left. reflexivity.
Defined.



Module NormalizeFacts.

Lemma fold_Qmax_bounds r : forall x0,
  x0 <= fold_left Qmax r x0
  /\ forall v, In v r -> v <= fold_left Qmax r x0.
Proof.
  induction r as [|a r IH]; intros x0; simpl.
  - split; [apply Qle_refl | intros v []].
  - destruct (IH (Qmax x0 a)) as [H0 Hr]. split.
    + eapply Qle_trans; [apply Q.le_max_l | exact H0].
    + intros v [<- | Hin]; [|now apply Hr].
      eapply Qle_trans; [apply Q.le_max_r | exact H0].
Qed.

Lemma fold_Qmin_bounds r : forall x0,
  fold_left Qmin r x0 <= x0
  /\ forall v, In v r -> fold_left Qmin r x0 <= v.
Proof.
  induction r as [|a r IH]; intros x0; simpl.
  - split; [apply Qle_refl | intros v []].
  - destruct (IH (Qmin x0 a)) as [H0 Hr]. split.
    + eapply Qle_trans; [exact H0 | apply Q.le_min_l].
    + intros v [<- | Hin]; [|now apply Hr].
      eapply Qle_trans; [exact H0 | apply Q.le_min_r].
Qed.

(** [Math.max] and [Math.min] of a non-empty list bound its members. *)
Lemma Math_bounds (xs : list Q) :
  xs <> [] ->
  exists mx mn,
    Js.Math_max xs = Some mx /\ Js.Math_min xs = Some mn
    /\ forall v, In v xs -> mn <= v <= mx.
Proof.
  destruct xs as [|x0 r]; [contradiction|]. intros _.
  exists (fold_left Qmax r x0), (fold_left Qmin r x0).
  split; [reflexivity|]. split; [reflexivity|].
  destruct (fold_Qmax_bounds r x0) as [M0 Mr].
  destruct (fold_Qmin_bounds r x0) as [m0 mr].
  intros v [<- | Hin]; split; auto.
Qed.

(** [normalizeValue] on a value between the minimum and the maximum. *)
Lemma normalizeValue_range (mx mn v : Q) :
  mn <= v <= mx ->
  exists w,
    normalizeValue mx mn v = Some w
    /\ 1 <= w <= 5
    /\ (mx == mn -> w = 2)
    /\ (~ mx == mn ->
        w == 1 + (v - mn) / (mx - mn) * 4
        /\ (v == mn -> w == 1) /\ (v == mx -> w == 5)).
Proof.
  intros [Hlo Hhi]. unfold normalizeValue.
  destruct (Qeq_bool mx mn) eqn:He.
  - apply Qeq_bool_iff in He. exists 2.
    split; [reflexivity|]. split; [split; discriminate|].
    split; [reflexivity | intros Hn; contradiction].
  - assert (~ mx == mn) as Hne
      by (intros E; apply Qeq_bool_iff in E; congruence).
    assert (0 < mx - mn) as Hpos.
    { destruct (Qlt_le_dec mn mx) as [Hlt | Hle]; [lra|].
      exfalso. apply Hne. lra. }
    unfold Js.div.
    destruct (Qeq_bool (mx - mn) 0) eqn:Hz.
    { apply Qeq_bool_iff in Hz. lra. }
    exists (1 + (v - mn) / (mx - mn) * 4).
    split; [reflexivity|].
    assert (0 <= (v - mn) / (mx - mn)) as H0.
    { apply Qle_shift_div_l; [exact Hpos | lra]. }
    assert ((v - mn) / (mx - mn) <= 1) as H1.
    { apply Qle_shift_div_r; [exact Hpos | lra]. }
    split; [split; lra|]. split; [intros E; contradiction|].
    intros _. split; [reflexivity|].
    assert (~ mx - mn == 0) as Hd by lra.
    split; intros E; rewrite E; field; exact Hd.
Qed.

End NormalizeFacts.

(** C6, as stated, fails on a graph of one link: its maximum and
    minimum are equal, and the weight given is 2, which is not the
    mid-value 3 of the range from 1 to 5. *)
Lemma single_value_weight_is_not_mid_range :
  exists g l,
    simulation (build Samples.single Samples.A ∅ medium Samples.st0) = Some g
    /\ links g = [l]
    /\ maxValue g = Some 4 /\ minValue g = Some 4
    /\ normalizeValue 4 4 (Link.value l) = Some 2
    /\ ~ 2 == (1 + 5) / 2.
Proof.
  eexists. eexists. split; [vm_compute; reflexivity|].
  split; [reflexivity|]. split; [reflexivity|]. split; [reflexivity|].
  split; [reflexivity|]. intros E. discriminate E.
Qed.

(** C6, amended: in every emitted graph the maximum and minimum link
    values exist and bound each link's value; [normalizeValue] returns a
    finite weight between 1 and 5 for each link: the constant 2, a
    value inside the range, when maximum and minimum are equal (no
    division takes place), and otherwise
    [1 + (value - min) / (max - min) * 4], which is 1 at the minimum
    and 5 at the maximum. *)
Theorem normalizeValue_bounded txs focus explored detailLevel st g :
  simulation (build txs focus explored detailLevel st) = Some g ->
  exists mx mn,
    maxValue g = Some mx /\ minValue g = Some mn
    /\ forall l, In l (links g) ->
       exists w,
         normalizeValue mx mn (Link.value l) = Some w
         /\ 1 <= w <= 5
         /\ (mx == mn -> w = 2 /\ 1 < w < 5)
         /\ (~ mx == mn ->
             w == 1 + (Link.value l - mn) / (mx - mn) * 4
             /\ (Link.value l == mn -> w == 1)
             /\ (Link.value l == mx -> w == 5)).
Proof.
  intros Hg. unfold build in Hg.
  apply BuildResult.simulation_Some in Hg as (Hl & _ & Hlinks & Hmx & Hmn).
  destruct (NormalizeFacts.Math_bounds (List.map Link.value (links g)))
    as (mx & mn & Emx & Emn & Hb).
  { rewrite Hlinks. intros E. apply map_eq_nil in E.
    apply map_eq_nil in E. contradiction. }
  exists mx, mn. split; [congruence|]. split; [congruence|].
  intros l Hin.
  destruct (NormalizeFacts.normalizeValue_range mx mn (Link.value l))
    as (w & Hw & Hr & Heq & Hne).
  { apply Hb. apply in_map_iff. now exists l. }
  exists w. split; [exact Hw|]. split; [exact Hr|]. split; [|exact Hne].
  intros E. rewrite (Heq E). split; [reflexivity|]. split; reflexivity.
Qed.

Lemma normalizeValue_bounded_witness :
  exists mx mn,
    maxValue Samples.inOutGraph = Some mx
    /\ minValue Samples.inOutGraph = Some mn
    /\ forall l, In l (links Samples.inOutGraph) ->
       exists w,
         normalizeValue mx mn (Link.value l) = Some w
         /\ 1 <= w <= 5
         /\ (mx == mn -> w = 2 /\ 1 < w < 5)
         /\ (~ mx == mn ->
             w == 1 + (Link.value l - mn) / (mx - mn) * 4
             /\ (Link.value l == mn -> w == 1)
             /\ (Link.value l == mx -> w == 5)).
Proof.
  apply (normalizeValue_bounded
           Samples.inOut Samples.A ∅ medium Samples.st0 Samples.inOutGraph).
  vm_compute. reflexivity.
Defined.

(** ** Properties of the layout *)

Module LayoutFacts.
Import Layout.

Lemma clamp_lower (dimension c : Q) : 100 <= clamp dimension c.
Proof. apply Q.le_max_l. Qed.

Lemma clamp_upper (dimension c : Q) :
  200 <= dimension -> clamp dimension c <= dimension - 100.
Proof.
  intros Hd. apply Q.max_lub; [lra | apply Q.le_min_l].
Qed.

Lemma clamp_inside (dimension c : Q) :
  100 <= c <= dimension - 100 -> clamp dimension c == c.
Proof.
  intros [Hlo Hhi]. unfold clamp.
  assert (Qmin (dimension - 100) c == c) as Hmin by now apply Q.min_r.
  rewrite Q.max_r; [exact Hmin | now rewrite Hmin].
Qed.

Lemma settled_pinned width i px py s :
  settledAt width i px py s -> pinnedAt i px py s.
Proof. intros (d & H & Hx & Hy & _). now exists d. Qed.

Lemma forces_lookup forces a ns i d :
  keepsPins forces -> ns !! i = Some d ->
  exists d1, forces a ns !! i = Some d1 /\ pin d1 = pin d.
Proof.
  intros Hk Hl. pose proof (f_equal (fun l => l !! i) (Hk a ns)) as E.
  simpl in E. rewrite !list_lookup_fmap, Hl in E. simpl in E.
  destruct (forces a ns !! i) as [d1|]; [|discriminate E].
  exists d1. split; [reflexivity|]. simpl in E. unfold pin in *. congruence.
Qed.

(** A tick puts a pinned node on its pin, clamped. *)
Lemma step_settles forces width i px py s :
  keepsPins forces ->
  pinnedAt i px py s -> settledAt width i px py (step forces width s).
Proof.
  intros Hk (d & Hl & Hx & Hy).
  destruct (forces_lookup forces
              (alpha s + (alphaTarget s - alpha s) * alphaDecay)
              _ _ _ Hk Hl) as (d1 & Hl1 & Hp).
  injection Hp as Hfx Hfy. rewrite Hx in Hfx. rewrite Hy in Hfy.
  exists (mkSim (datum d1) (clamp width px) (clamp height py) 0 0
                (Some px) (Some py)).
  split; [|simpl; repeat split; reflexivity].
  unfold step, d3_tick, tickListener. simpl.
  rewrite !list_lookup_fmap, Hl1. simpl.
  unfold integrate. rewrite Hfx, Hfy. reflexivity.
Qed.

Lemma freeze_settled width i px py s :
  settledAt width i px py s -> settledAt width i px py (freeze s).
Proof.
  intros (d & Hl & Hx & Hy & Cx & Cy).
  exists (freezeNode d). unfold freeze. simpl.
  rewrite list_lookup_fmap, Hl. split; [reflexivity|].
  unfold freezeNode, setPin. rewrite Hx, Hy.
  destruct (truthyNum (x d) && truthyNum (y d)); simpl; now repeat split.
Qed.

Lemma freeze_pinned i px py s :
  pinnedAt i px py s -> pinnedAt i px py (freeze s).
Proof.
  intros (d & Hl & Hx & Hy).
  exists (freezeNode d). unfold freeze. simpl.
  rewrite list_lookup_fmap, Hl. split; [reflexivity|].
  unfold freezeNode, setPin. rewrite Hx, Hy.
  destruct (truthyNum (x d) && truthyNum (y d)); simpl; now repeat split.
Qed.

(** The drag handlers touch no node but the dragged one. *)
Lemma drag_other_lookup s i e :
  match e with
  | DragStart ev j => i <> j ->
      simNodes (dragstarted ev j s) !! i = simNodes s !! i
  | Drag ev j => i <> j ->
      simNodes (dragged ev j s) !! i = simNodes s !! i
  | DragEnd ev j =>
      simNodes (dragended ev j s) !! i = simNodes s !! i
  | _ => True
  end.
Proof.
  destruct e as [| |ev j|ev j|ev j]; try exact I.
  - intros Hne. unfold dragstarted.
    destruct (active ev =? 0)%nat; simpl;
      now rewrite list_lookup_alter_ne by congruence.
  - intros Hne. unfold dragged. simpl.
    now rewrite list_lookup_alter_ne by congruence.
  - unfold dragended. now destruct (active ev =? 0)%nat.
Qed.

Lemma handle_pinned forces width i px py s e :
  keepsPins forces -> leaves i e ->
  pinnedAt i px py s -> pinnedAt i px py (handle forces width s e).
Proof.
  intros Hk Hle Hp.
  destruct e as [| |ev j|ev j|ev j]; simpl in *.
  - eapply settled_pinned, step_settles; eassumption.
  - now apply freeze_pinned.
  - destruct Hp as (d & Hl & Hd). exists d.
    rewrite (drag_other_lookup s i (DragStart ev j) Hle). now split.
  - destruct Hp as (d & Hl & Hd). exists d.
    rewrite (drag_other_lookup s i (Drag ev j) Hle). now split.
  - destruct Hp as (d & Hl & Hd). exists d.
    rewrite (drag_other_lookup s i (DragEnd ev j)). now split.
Qed.

Lemma handle_settled forces width i px py s e :
  keepsPins forces -> leaves i e ->
  settledAt width i px py s ->
  settledAt width i px py (handle forces width s e).
Proof.
  intros Hk Hle Hp.
  destruct e as [| |ev j|ev j|ev j]; simpl in *.
  - eapply step_settles, settled_pinned; eassumption.
  - now apply freeze_settled.
  - destruct Hp as (d & Hl & Hd). exists d.
    rewrite (drag_other_lookup s i (DragStart ev j) Hle). now split.
  - destruct Hp as (d & Hl & Hd). exists d.
    rewrite (drag_other_lookup s i (Drag ev j) Hle). now split.
  - destruct Hp as (d & Hl & Hd). exists d.
    rewrite (drag_other_lookup s i (DragEnd ev j)). now split.
Qed.

Lemma run_pinned forces width i px py es : forall s,
  keepsPins forces -> List.Forall (leaves i) es ->
  pinnedAt i px py s -> pinnedAt i px py (run forces width s es).
Proof.
  induction es as [|e es IH]; intros s Hk Hes Hp; [exact Hp|].
  apply List.Forall_cons_iff in Hes as [He Hes]. simpl.
  apply IH; try assumption. now apply handle_pinned.
Qed.

Lemma run_settled forces width i px py es : forall s,
  keepsPins forces -> List.Forall (leaves i) es ->
  settledAt width i px py s -> settledAt width i px py (run forces width s es).
Proof.
  induction es as [|e es IH]; intros s Hk Hes Hp; [exact Hp|].
  apply List.Forall_cons_iff in Hes as [He Hes]. simpl.
  apply IH; try assumption. now apply handle_settled.
Qed.

(** Once a tick has run, a pinned node sits on its clamped pin. *)
Lemma run_settles forces width i px py es : forall s,
  keepsPins forces -> List.Forall (leaves i) es -> In Tick es ->
  pinnedAt i px py s -> settledAt width i px py (run forces width s es).
Proof.
  induction es as [|e es IH]; intros s Hk Hes Hin Hp; [destruct Hin|].
  apply List.Forall_cons_iff in Hes as [He Hes]. simpl.
  destruct Hin as [-> | Hin].
  - apply run_settled; try assumption. simpl. now apply step_settles.
  - apply IH; try assumption. now apply handle_pinned.
Qed.

(** After [dragged] and [dragended] the node is pinned at the pointer. *)
Lemma drag_pins event evEnd i s d :
  simNodes s !! i = Some d ->
  pinnedAt i (ev_x event) (ev_y event)
           (dragended evEnd i (dragged event i s)).
Proof.
  intros Hl.
  exists (setPin (Some (ev_x event)) (Some (ev_y event)) d).
  split; [|now split].
  rewrite (drag_other_lookup _ i (DragEnd evEnd i)).
  unfold dragged. simpl. now rewrite list_lookup_alter_eq, Hl.
Qed.

Lemma drift_keepsPins : keepsPins Samples.drift.
Proof.
  intros a ns. unfold Samples.drift.
  induction ns as [|d ns IH]; [reflexivity|].
  simpl. f_equal. exact IH.
Qed.

End LayoutFacts.

Import Layout.

(** C8, as stated, fails in a container 150 pixels wide: the listener
    puts every node at x = 100, which is above width - margin = 50. *)
Lemma narrow_container_out_of_range :
  let ns := tickListener 150 (simNodes Samples.sim0) in
  List.map x ns = [100; 100; 100]
  /\ 150 - margin == 50
  /\ ~ List.Forall (inBounds 150) ns.
Proof.
  split; [vm_compute; reflexivity|]. split; [reflexivity|].
  intros H. apply List.Forall_inv in H. destruct H as [[_ H] _].
  vm_compute in H. apply H. reflexivity.
Qed.

(** C8, amended: on every tick the listener sets each node's x to
    [max(100, min(width - 100, x))] and its y to
    [max(100, min(700, y))] (the height is fixed at 800) and leaves the
    rest of the node alone; so y lies in [100, 700] and x is at least
    100 in every container, and x lies in [100, width - 100] when the
    container is at least 200 pixels wide.  The nodes of the simulation
    after a tick are the listener's. *)
Theorem tick_clamps_nodes width ns :
  Forall2
    (fun d d' =>
       x d' = Qmax 100 (Qmin (width - 100) (x d))
       /\ y d' = Qmax 100 (Qmin (800 - 100) (y d))
       /\ datum d' = datum d /\ pin d' = pin d)
    ns (tickListener width ns)
  /\ List.Forall
       (fun d => margin <= x d /\ margin <= y d <= height - margin)
       (tickListener width ns)
  /\ (200 <= width -> List.Forall (inBounds width) (tickListener width ns))
  /\ (forall forces s,
        simNodes (step forces width s)
        = tickListener width (simNodes (d3_tick forces s))).
Proof.
  split.
  { unfold tickListener. induction ns as [|d ns IH]; constructor.
    - now repeat split.
    - exact IH. }
  split; [|split; [intros Hw | reflexivity]];
    unfold tickListener; apply Forall_fmap, Forall_true; intros d;
    unfold inBounds, margin, height; simpl.
  - split; [apply LayoutFacts.clamp_lower|].
    split; [apply LayoutFacts.clamp_lower|].
    apply (LayoutFacts.clamp_upper 800). discriminate.
  - split; split;
      try apply LayoutFacts.clamp_lower;
      try (apply LayoutFacts.clamp_upper; assumption).
    apply (LayoutFacts.clamp_upper 800). discriminate.
Qed.

Lemma tick_clamps_nodes_witness :
  200 <= 1000
  /\ List.Forall (inBounds 1000)
       (tickListener 1000 (simNodes Samples.sim0)).
Proof.
  assert (200 <= 1000) as Hw by (vm_compute; discriminate).
  split; [exact Hw|].
  apply (tick_clamps_nodes 1000 (simNodes Samples.sim0)). exact Hw.
Defined.

(** C9, as stated, fails for a drag that ends inside the margin: node B
    dragged to (50, 400) and released keeps its pin at (50, 400), but
    after the next ticks its x coordinate is 100, not 50. *)
Lemma drag_into_margin_moves_node :
  let s1 := dragended (Samples.at_ 50 400) 1
              (dragged (Samples.at_ 50 400) 1
                 (dragstarted (Samples.at_ 0 900) 1 Samples.sim0)) in
  let s2 := run Samples.drift 1000 s1 [Tick; Tick] in
  exists d,
    simNodes s2 !! 1%nat = Some d
    /\ fx d = Some 50 /\ fy d = Some 400
    /\ x d = 100 /\ y d = 400
    /\ ~ (x d == 50 /\ y d == 400).
Proof.
  eexists. split; [vm_compute; reflexivity|]. simpl.
  repeat split. intros [H _]. discriminate H.
Qed.

(** C9, amended: [dragended] does not release the pin.  After a drag
    of node [i] that ends at [(x0, y0)], and through any later ticks,
    freeze and drag gestures on other nodes, under any forces, the node
    keeps [fx = x0] and [fy = y0]; once a tick has run its coordinates
    are the pin clamped by the tick listener,
    [(max(100, min(width - 100, x0)), max(100, min(700, y0)))], which is
    [(x0, y0)] when the drag ended at least 100 pixels inside the
    area. *)
Theorem drag_end_keeps_pin forces width s i d event evEnd es :
  keepsPins forces ->
  simNodes s !! i = Some d ->
  List.Forall (leaves i) es ->
  let x0 := ev_x event in
  let y0 := ev_y event in
  let s' := run forces width (dragended evEnd i (dragged event i s)) es in
  exists d',
    simNodes s' !! i = Some d'
    /\ fx d' = Some x0 /\ fy d' = Some y0
    /\ (In Tick es ->
        x d' = clamp width x0 /\ y d' = clamp height y0
        /\ (margin <= x0 <= width - margin ->
            margin <= y0 <= height - margin ->
            x d' == x0 /\ y d' == y0)).
Proof.
  intros Hk Hl Hes x0 y0 s'.
  pose proof (LayoutFacts.drag_pins event evEnd i s d Hl) as Hp.
  destruct (LayoutFacts.run_pinned forces width i x0 y0 es _ Hk Hes Hp)
    as (d' & Hd' & Hx & Hy).
  exists d'. split; [exact Hd'|]. split; [exact Hx|]. split; [exact Hy|].
  intros Hin.
  destruct (LayoutFacts.run_settles forces width i x0 y0 es _ Hk Hes Hin Hp)
    as (d2 & Hd2 & _ & _ & Cx & Cy).
  unfold s' in Hd'. rewrite Hd' in Hd2. injection Hd2 as <-.
  split; [exact Cx|]. split; [exact Cy|].
  intros Bx By. rewrite Cx, Cy.
  split; apply LayoutFacts.clamp_inside; assumption.
Qed.

Lemma drag_end_keeps_pin_witness :
  let s' := run Samples.drift 1000
              (dragended (Samples.at_ 300 200) 1
                 (dragged (Samples.at_ 300 200) 1
                    (dragstarted (Samples.at_ 0 900) 1 Samples.sim0)))
              [Tick; Drag (Samples.at_ 10 10) 2; Tick; Freeze; Tick] in
  exists d',
    simNodes s' !! 1%nat = Some d'
    /\ fx d' = Some 300 /\ fy d' = Some 200
    /\ (In Tick [Tick; Drag (Samples.at_ 10 10) 2; Tick; Freeze; Tick] ->
        x d' = clamp 1000 300 /\ y d' = clamp height 200
        /\ (margin <= 300 <= 1000 - margin ->
            margin <= 200 <= height - margin ->
            x d' == 300 /\ y d' == 200)).
Proof.
  apply (drag_end_keeps_pin Samples.drift 1000
           (dragstarted (Samples.at_ 0 900) 1 Samples.sim0) 1
           (Samples.node Samples.B 0 900 (Some 0, Some 900))
           (Samples.at_ 300 200) (Samples.at_ 300 200)).
  - exact LayoutFacts.drift_keepsPins.
  - reflexivity.
  - repeat constructor; simpl; lia.
Defined.


(** ** Further properties of the builder *)

Module NodeFacts.
Import TransactionGraph BuilderFacts.

Lemma add_NoDup k s : NoDup s -> NoDup (Js.add k s).
Proof.
  intros Hs. unfold Js.add. destruct (Js.has s k) eqn:Hh; [exact Hs|].
  apply NoDup_app. split; [exact Hs|]. split.
  - intros x Hx Hx'. apply list_elem_of_In in Hx.
    apply list_elem_of_In in Hx'. destruct Hx' as [<- | []].
    apply has_In in Hx. congruence.
  - apply NoDup_singleton.
Qed.

Lemma addEnds_NoDup ids tx : NoDup ids -> NoDup (addEnds ids tx).
Proof.
  intros H. unfold addEnds.
  destruct (Js.truthy (Transaction.source tx)),
           (Js.truthy (Transaction.target tx));
    repeat apply add_NoDup; exact H.
Qed.

Lemma nodeIds_NoDup focus limited : NoDup (nodeIds focus limited).
Proof.
  unfold nodeIds.
  assert (NoDup (Js.add focus [])) as H0 by (apply add_NoDup; constructor).
  revert H0. generalize (Js.add focus []).
  induction limited as [|tx l IH]; intros ids H; simpl; [exact H|].
  apply IH, addEnds_NoDup, H.
Qed.

Lemma addEnds_In ids tx k :
  In k (addEnds ids tx) ->
  In k ids \/ k = Transaction.source tx \/ k = Transaction.target tx.
Proof.
  unfold addEnds.
  destruct (Js.truthy (Transaction.source tx)),
           (Js.truthy (Transaction.target tx));
    rewrite ?add_In; tauto.
Qed.

Lemma addEnds_length ids tx : (length (addEnds ids tx) <= length ids + 2)%nat.
Proof.
  assert (forall k s, length (Js.add k s) <= length s + 1)%nat as Ha.
  { intros k s. unfold Js.add. destruct (Js.has s k); [lia|].
    rewrite length_app. simpl. lia. }
  unfold addEnds.
  destruct (Js.truthy (Transaction.source tx)),
           (Js.truthy (Transaction.target tx)).
  - pose proof (Ha (Transaction.target tx)
                   (Js.add (Transaction.source tx) ids)).
    pose proof (Ha (Transaction.source tx) ids). lia.
  - pose proof (Ha (Transaction.source tx) ids). lia.
  - pose proof (Ha (Transaction.target tx) ids). lia.
  - lia.
Qed.

Lemma fold_addEnds_In txs : forall ids k,
  In k (fold_left addEnds txs ids) ->
  In k ids \/
  exists tx, In tx txs /\
             (k = Transaction.source tx \/ k = Transaction.target tx).
Proof.
  induction txs as [|t txs IH]; intros ids k Hk; simpl in Hk; [now left|].
  apply IH in Hk as [Hk | (tx & Hin & Htx)].
  - apply addEnds_In in Hk as [Hk | Hk]; [now left|].
    right. exists t. split; [now left | exact Hk].
  - right. exists tx. split; [now right | exact Htx].
Qed.

Lemma fold_addEnds_length txs : forall ids,
  (length (fold_left addEnds txs ids) <= length ids + 2 * length txs)%nat.
Proof.
  induction txs as [|t txs IH]; intros ids; simpl; [lia|].
  pose proof (IH (addEnds ids t)). pose proof (addEnds_length ids t). lia.
Qed.

Lemma ids_mkNodes explored ids : List.map id (mkNodes explored ids) = ids.
Proof.
  unfold mkNodes. rewrite List.map_map. simpl. apply List.map_id.
Qed.

(** Lookups in [nodeMap] when the ids of the nodes are unique. *)
Lemma fold_insert_notin ns : forall (m : gmap string Node) k,
  ~ In k (List.map id ns) ->
  fold_left (fun m n => <[id n := n]> m) ns m !! k = m !! k.
Proof.
  induction ns as [|a ns IH]; intros m k Hk; simpl; [reflexivity|].
  rewrite IH by (intros H; apply Hk; now right).
  apply lookup_insert_ne. intros E. apply Hk. now left.
Qed.

Lemma nodeMap_lookup_node ns n :
  List.NoDup (List.map id ns) -> In n ns -> nodeMap ns !! id n = Some n.
Proof.
  unfold nodeMap. generalize (∅ : gmap string Node).
  induction ns as [|a ns IH]; intros m Hnd Hin; [destruct Hin|].
  simpl in *. apply List.NoDup_cons_iff in Hnd as [Ha Hnd].
  destruct Hin as [-> | Hin].
  - rewrite fold_insert_notin by exact Ha. apply lookup_insert_eq.
  - now apply IH.
Qed.

Lemma nodeMap_lookup_absent ns k :
  ~ In k (List.map id ns) -> nodeMap ns !! k = None.
Proof.
  intros Hk. unfold nodeMap. rewrite fold_insert_notin by exact Hk.
  apply lookup_empty.
Qed.

Lemma NoDup_stdpp_List {X} (l : list X) : NoDup l -> List.NoDup l.
Proof.
  induction 1 as [|x l Hx Hl IH]; constructor; [|exact IH].
  intros Hin. apply Hx. now apply list_elem_of_In.
Qed.

End NodeFacts.

(** X1: in every emitted graph the node ids are pairwise distinct, the
    focus address is one of them, and every other node is the source or
    the target of a record kept by the limit. *)
Theorem node_ids_unique_and_used txs focus explored detailLevel st g :
  simulation (build txs focus explored detailLevel st) = Some g ->
  List.NoDup (List.map id (nodes g))
  /\ In focus (List.map id (nodes g))
  /\ forall n, In n (nodes g) ->
       id n = focus \/
       exists tx,
         In tx (limitedTransactions (transactionLimit detailLevel) txs)
         /\ (id n = Transaction.source tx \/ id n = Transaction.target tx).
Proof.
  intros Hg. unfold build in Hg.
  apply BuildResult.simulation_Some in Hg as (_ & Hn & _).
  rewrite Hn, NodeFacts.ids_mkNodes.
  split; [apply NodeFacts.NoDup_stdpp_List, NodeFacts.nodeIds_NoDup|].
  split; [apply BuilderFacts.nodeIds_focus|].
  intros n Hin.
  assert (In (id n) (nodeIds focus
            (limitedTransactions (transactionLimit detailLevel) txs)))
    as Hid.
  { rewrite <- (NodeFacts.ids_mkNodes explored). now apply in_map. }
  apply NodeFacts.fold_addEnds_In in Hid as [Hf | Htx]; [|now right].
  left. apply BuilderFacts.add_In in Hf as [Hf | []]. exact Hf.
Qed.

Lemma node_ids_unique_and_used_witness :
  List.NoDup (List.map id (nodes Samples.inOutGraph))
  /\ In Samples.A (List.map id (nodes Samples.inOutGraph))
  /\ forall n, In n (nodes Samples.inOutGraph) ->
       id n = Samples.A \/
       exists tx,
         In tx (limitedTransactions (transactionLimit medium) Samples.inOut)
         /\ (id n = Transaction.source tx \/ id n = Transaction.target tx).
Proof.
  apply (node_ids_unique_and_used
           Samples.inOut Samples.A ∅ medium Samples.st0 Samples.inOutGraph).
  vm_compute. reflexivity.
Defined.

(** X2: an emitted graph has at least two nodes and at most one more
    than twice the number of its links, hence at most 2 * limit + 1. *)
Theorem node_count_bounds txs focus explored detailLevel st g :
  simulation (build txs focus explored detailLevel st) = Some g ->
  (2 <= length (nodes g) <= 2 * length (links g) + 1
   /\ length (links g) <= transactionLimit detailLevel)%nat.
Proof.
  intros Hg. unfold build in Hg.
  apply BuildResult.simulation_Some in Hg as (Hl & Hn & Hlinks & _).
  set (limited := limitedTransactions (transactionLimit detailLevel) txs)
    in *.
  assert (length (links g) = length limited) as Hlen
    by (rewrite Hlinks; apply length_map).
  assert (length (nodes g) = length (nodeIds focus limited)) as Hnodes
    by (rewrite Hn; apply length_map).
  rewrite Hlen, Hnodes. split; [split|].
  - destruct limited as [|tx l] eqn:E; [contradiction|].
    assert (In tx limited) as Hin by (rewrite E; now left).
    pose proof (BuilderFacts.limited_valid _ _ _ Hin) as Hv.
    rewrite <- E.
    destruct (BuilderFacts.nodeIds_ends focus limited tx Hin Hv) as [Hs Ht].
    apply BuilderFacts.isValid_spec in Hv as (_ & _ & Hd).
    pose proof (NodeFacts.nodeIds_NoDup focus limited) as Hnd.
    destruct (nodeIds focus limited) as [|a [|b r]]; simpl in *.
    + destruct Hs.
    + destruct Hs as [Hs | []], Ht as [Ht | []]. congruence.
    + lia.
  - unfold nodeIds.
    pose proof (NodeFacts.fold_addEnds_length limited (Js.add focus [])).
    simpl in H. lia.
  - unfold limited, limitedTransactions. apply firstn_le_length.
Qed.

Lemma node_count_bounds_witness :
  (2 <= length (nodes Samples.manyGraph)
     <= 2 * length (links Samples.manyGraph) + 1
   /\ length (links Samples.manyGraph) <= transactionLimit low)%nat.
Proof.
  apply (node_count_bounds
           Samples.many Samples.A ∅ low Samples.st0 Samples.manyGraph).
  vm_compute. reflexivity.
Defined.

(** X3: [nodeMap] is a faithful index of the emitted nodes: looking up
    the id of a node returns that very node, and looking up any other
    string returns nothing. *)
Theorem nodeMap_round_trip txs focus explored detailLevel st g :
  simulation (build txs focus explored detailLevel st) = Some g ->
  (forall n, In n (nodes g) -> nodeMap (nodes g) !! id n = Some n)
  /\ (forall k, ~ In k (List.map id (nodes g)) ->
                nodeMap (nodes g) !! k = None
                /\ mapHas (nodeMap (nodes g)) k = false).
Proof.
  intros Hg.
  assert (List.NoDup (List.map id (nodes g))) as Hnd.
  { unfold build in Hg.
    apply BuildResult.simulation_Some in Hg as (_ & Hn & _).
    rewrite Hn, NodeFacts.ids_mkNodes.
    apply NodeFacts.NoDup_stdpp_List, NodeFacts.nodeIds_NoDup. }
  split.
  - intros n Hin. now apply NodeFacts.nodeMap_lookup_node.
  - intros k Hk. pose proof (NodeFacts.nodeMap_lookup_absent _ _ Hk) as E.
    split; [exact E|]. unfold mapHas. rewrite E.
    apply bool_decide_eq_false. intros [v Hv]. discriminate Hv.
Qed.

Lemma nodeMap_round_trip_witness :
  (forall n, In n (nodes Samples.inOutGraph) ->
             nodeMap (nodes Samples.inOutGraph) !! id n = Some n)
  /\ (forall k, ~ In k (List.map id (nodes Samples.inOutGraph)) ->
                nodeMap (nodes Samples.inOutGraph) !! k = None
                /\ mapHas (nodeMap (nodes Samples.inOutGraph)) k = false).
Proof.
  apply (nodeMap_round_trip
           Samples.inOut Samples.A ∅ medium Samples.st0 Samples.inOutGraph).
  vm_compute. reflexivity.
Defined.

Module ViewFacts.
Import TransactionGraph BuilderFacts.

Lemma nodeMap_lookup_id ns k :
  In k (List.map id ns) -> id <$> (nodeMap ns !! k) = Some k.
Proof.
  intros Hin. apply in_map_iff in Hin as (n & Hid & Hn).
  destruct (fold_insert_is_Some ns ∅ k) as [n' Hn'].
  { left. now exists n. }
  unfold nodeMap. rewrite Hn'. simpl. f_equal.
  now apply nodeMap_Some in Hn'.
Qed.

Lemma explored_after_click (explored : gset string) (d i : string) :
  bool_decide (i ∈ explored ∪ {[ d ]})
  = bool_decide (i ∈ explored) || String.eqb i d.
Proof.
  destruct (String.eqb_spec i d) as [-> | Hne].
  - rewrite orb_true_r. apply bool_decide_eq_true.
    apply elem_of_union. right. now apply elem_of_singleton.
  - rewrite orb_false_r. apply bool_decide_ext.
    rewrite elem_of_union, elem_of_singleton. tauto.
Qed.

End ViewFacts.

Import GraphView.

(** X4: clicking a node adds its id to the explored set and passes
    that id to [onNodeClick]; the graph rebuilt from the same
    transactions has the same node ids in the same order, the clicked
    node flagged as explored and every other flag unchanged, and links
    with the same endpoints, values, directions and transaction ids. *)
Theorem click_marks_only_clicked_node
    txs focus exploredNodes detailLevel st g d :
  simulation (build txs focus exploredNodes detailLevel st) = Some g ->
  In d (nodes g) ->
  snd (handleNodeClick d exploredNodes) = id d
  /\ exists g',
       simulation (build txs focus (fst (handleNodeClick d exploredNodes))
                         detailLevel st) = Some g'
       /\ Forall2
            (fun n n' =>
               id n' = id n
               /\ explored n'
                  = explored n || String.eqb (id n) (id d))
            (nodes g) (nodes g')
       /\ Forall2
            (fun l l' =>
               (id <$> Link.source l') = (id <$> Link.source l)
               /\ (id <$> Link.target l') = (id <$> Link.target l)
               /\ Link.value l' = Link.value l
               /\ Link.direction l' = Link.direction l
               /\ Link.transactionId l' = Link.transactionId l)
            (links g) (links g').
Proof.
  intros Hg _. split; [reflexivity|]. unfold build in *.
  pose proof (BuildResult.simulation_mounted _ _ _ _ _ _ Hg) as Hm.
  apply BuildResult.simulation_Some in Hg as (Hl & Hn & Hlinks & _).
  destruct (BuildResult.simulation_started txs focus
              (fst (handleNodeClick d exploredNodes))
              (transactionLimit detailLevel) st Hm Hl) as [_ [g' Hg']].
  exists g'. split; [exact Hg'|].
  apply BuildResult.simulation_Some in Hg' as (_ & Hn' & Hlinks' & _).
  set (limited := limitedTransactions (transactionLimit detailLevel) txs)
    in *.
  split.
  - rewrite Hn, Hn'. unfold mkNodes. simpl.
    generalize (nodeIds focus limited) as ids. intros ids.
    clear. induction ids as [|i ids IH]; constructor.
    + simpl. split; [reflexivity|]. apply ViewFacts.explored_after_click.
    + exact IH.
  - assert (List.map id (nodes g) = nodeIds focus limited) as Ig
      by (rewrite Hn; apply NodeFacts.ids_mkNodes).
    assert (List.map id (nodes g') = nodeIds focus limited) as Ig'
      by (rewrite Hn'; apply NodeFacts.ids_mkNodes).
    rewrite Hlinks, Hlinks'.
    assert (forall tx, In tx limited ->
              (In (Transaction.source tx) (List.map id (nodes g))
               /\ In (Transaction.target tx) (List.map id (nodes g)))
              /\ (In (Transaction.source tx) (List.map id (nodes g'))
                  /\ In (Transaction.target tx) (List.map id (nodes g'))))
      as He2.
    { intros tx Hin. rewrite Ig, Ig'. split; apply BuilderFacts.nodeIds_ends;
        try exact Hin;
        now apply (BuilderFacts.limited_valid
                     (transactionLimit detailLevel) txs). }
    revert He2. generalize limited as L. generalize (nodes g) as ns.
    generalize (nodes g') as ns'. clear. intros ns' ns L He.
    induction L as [|tx L IH]; simpl; constructor.
    + destruct (He tx (or_introl eq_refl)) as [[Hs Ht] [Hs' Ht']]. simpl.
      rewrite !ViewFacts.nodeMap_lookup_id by assumption.
      now repeat split.
    + apply IH. intros tx' Hin. apply He. now right.
Qed.

Lemma click_marks_only_clicked_node_witness :
  snd (handleNodeClick (mkNode Samples.C false) ∅) = Samples.C
  /\ exists g',
       simulation (build Samples.inOut Samples.A
                         (fst (handleNodeClick (mkNode Samples.C false) ∅))
                         medium Samples.st0) = Some g'
       /\ Forall2
            (fun n n' =>
               id n' = id n
               /\ explored n'
                  = explored n || String.eqb (id n) Samples.C)
            (nodes Samples.inOutGraph) (nodes g')
       /\ Forall2
            (fun l l' =>
               (id <$> Link.source l') = (id <$> Link.source l)
               /\ (id <$> Link.target l') = (id <$> Link.target l)
               /\ Link.value l' = Link.value l
               /\ Link.direction l' = Link.direction l
               /\ Link.transactionId l' = Link.transactionId l)
            (links Samples.inOutGraph) (links g').
Proof.
  apply (click_marks_only_clicked_node
           Samples.inOut Samples.A ∅ medium Samples.st0
           Samples.inOutGraph (mkNode Samples.C false)).
  - vm_compute. reflexivity.
  - vm_compute. right. right. left. reflexivity.
Defined.

(** X5: the connected nodes of an address are exactly the other ends
    of the kept records that touch it; none of them is the address
    itself, and each is the id of a node of the graph. *)
Theorem connected_nodes_are_peers txs focus limit address p :
  let limited := limitedTransactions limit txs in
  (In p (getConnectedNodes limited address) <->
   exists tx, In tx limited /\
     ((Transaction.source tx = address /\ Transaction.target tx = p)
      \/ (Transaction.target tx = address /\ Transaction.source tx = p)))
  /\ (In p (getConnectedNodes limited address) ->
      p <> address /\ In p (nodeIds focus limited)).
Proof.
  intros limited.
  assert (In p (getConnectedNodes limited address) <->
   exists tx, In tx limited /\
     ((Transaction.source tx = address /\ Transaction.target tx = p)
      \/ (Transaction.target tx = address /\ Transaction.source tx = p)))
    as Hiff.
  { unfold getConnectedNodes. rewrite in_map_iff. split.
    - intros (tx & Hp & Hin). apply filter_In in Hin as [Hin Ht].
      exists tx. split; [exact Hin|].
      destruct (String.eqb_spec (Transaction.source tx) address) as [Es|Ns].
      + now left.
      + simpl in Ht. apply String.eqb_eq in Ht. now right.
    - intros (tx & Hin & Hcase). exists tx.
      pose proof (BuilderFacts.limited_valid _ _ _ Hin) as Hv.
      apply BuilderFacts.isValid_spec in Hv as (_ & _ & Hd).
      split.
      + destruct Hcase as [[Es Et] | [Et Es]].
        * rewrite <- Es, String.eqb_refl. exact Et.
        * destruct (String.eqb_spec (Transaction.source tx) address);
            [congruence | exact Es].
      + apply filter_In. split; [exact Hin|].
        destruct Hcase as [[Es Et] | [Et Es]].
        * rewrite <- Es, String.eqb_refl. reflexivity.
        * rewrite <- Et, String.eqb_refl. apply orb_true_r. }
  split; [exact Hiff|].
  intros Hp. apply Hiff in Hp as (tx & Hin & Hcase).
  pose proof (BuilderFacts.limited_valid _ _ _ Hin) as Hv.
  destruct (BuilderFacts.nodeIds_ends focus limited tx Hin Hv) as [Hs Ht].
  apply BuilderFacts.isValid_spec in Hv as (_ & _ & Hd).
  destruct Hcase as [[Es Et] | [Et Es]]; subst; split;
    try assumption; congruence.
Qed.

Lemma connected_nodes_are_peers_witness :
  Samples.C <> Samples.A
  /\ In Samples.C
        (nodeIds Samples.A (limitedTransactions 50 Samples.inOut)).
Proof.
  apply (connected_nodes_are_peers Samples.inOut Samples.A 50%nat
           Samples.A Samples.C).
  vm_compute. right. left. reflexivity.
Defined.

(** X6: for every finite value of the logarithm, the stroke width of a
    link lies between 1 and 3 at rest and between 2 and 5 under the
    pointer, and the width under the pointer is strictly larger than at
    rest. *)
Theorem stroke_width_bounds (Math_log : Q -> Q) (d : Link.t) :
  1 <= strokeWidth Math_log d <= 3
  /\ 2 <= hoverStrokeWidth Math_log d <= 5
  /\ strokeWidth Math_log d < hoverStrokeWidth Math_log d.
Proof.
  unfold strokeWidth, hoverStrokeWidth.
  generalize (Math_log (Link.value d + 1)) as v. intros v.
  assert (forall a b, a <= b -> Qmax a b == b) as Hmr
    by (intros; now apply Q.max_r).
  assert (forall a b, b <= a -> Qmax a b == a) as Hml
    by (intros; now apply Q.max_l).
  assert (forall a b, a <= b -> Qmin a b == a) as Hnl
    by (intros; now apply Q.min_l).
  assert (forall a b, b <= a -> Qmin a b == b) as Hnr
    by (intros; now apply Q.min_r).
  destruct (Qlt_le_dec v 1) as [H1 | H1].
  - (* v < 1 *)
    assert (Qmax 1 v == 1) as E1 by (apply Hml; lra).
    assert (Qmax 2 (v * (15 # 10)) == 2) as E2 by (apply Hml; lra).
    rewrite E1, E2.
    rewrite (Hnr 3 1), (Hnr 5 2) by lra. lra.
  - assert (Qmax 1 v == v) as E1 by (apply Hmr; lra).
    rewrite E1.
    destruct (Qlt_le_dec v 3) as [H3 | H3].
    + rewrite (Hnr 3 v) by lra.
      destruct (Qlt_le_dec (v * (15 # 10)) 2) as [H2 | H2].
      * assert (Qmax 2 (v * (15 # 10)) == 2) as E2 by (apply Hml; lra).
        rewrite E2, (Hnr 5 2) by lra. lra.
      * assert (Qmax 2 (v * (15 # 10)) == v * (15 # 10)) as E2
          by (apply Hmr; lra).
        rewrite E2.
        destruct (Qlt_le_dec (v * (15 # 10)) 5) as [H5 | H5].
        -- rewrite (Hnr 5 (v * (15 # 10))) by lra. lra.
        -- rewrite (Hnl 5 (v * (15 # 10))) by lra. lra.
    + rewrite (Hnl 3 v) by lra.
      assert (Qmax 2 (v * (15 # 10)) == v * (15 # 10)) as E2
        by (apply Hmr; lra).
      rewrite E2.
      destruct (Qlt_le_dec (v * (15 # 10)) 5) as [H5 | H5].
      * rewrite (Hnr 5 (v * (15 # 10))) by lra. lra.
      * rewrite (Hnl 5 (v * (15 # 10))) by lra. lra.
Qed.

(** ** Properties of the wallet route *)

Module RouteFacts.
Import WalletRoute BuilderFacts.

Lemma or_string_truthy a b :
  Js.truthy b = true -> Js.truthy (Js.or_string a b) = true.
Proof.
  intros Hb. unfold Js.or_string. now destruct (Js.truthy a) eqn:Ha.
Qed.

Lemma sameAddress_refl a : sameAddress a a = true.
Proof. apply String.eqb_refl. Qed.

Lemma sameAddress_false_neq a b : sameAddress a b = false -> a <> b.
Proof. intros H ->. rewrite sameAddress_refl in H. discriminate H. Qed.

Lemma or_num_nonzero a b : ~ b == 0 -> ~ Js.or_num a b == 0.
Proof.
  intros Hb. unfold Js.or_num. destruct (Qeq_bool a 0) eqn:Ha; [exact Hb|].
  intros E. apply Qeq_bool_iff in E. congruence.
Qed.

Lemma graphTransaction_Some tx r :
  graphTransaction tx = Some r ->
  isValid r = true
  /\ sameAddress (Transaction.source r) (Transaction.target r) = false
  /\ ~ Transaction.amount r == 0
  /\ Transaction.transactionId r = hash tx.
Proof.
  unfold graphTransaction.
  destruct (sameAddress (Js.or_string (from tx) zeroAddress)
                        (Js.or_string (to tx) zeroAddress)) eqn:Hs;
    [discriminate|].
  intros E. injection E as <-. simpl.
  split; [|split; [exact Hs | split; [|reflexivity]]].
  - apply isValid_spec. simpl.
    assert (forall a, Js.or_string a zeroAddress <> "") as Hne.
    { intros a E.
      pose proof (or_string_truthy a zeroAddress eq_refl) as Ht.
      rewrite E in Ht. discriminate Ht. }
    split; [apply Hne|]. split; [apply Hne|].
    now apply sameAddress_false_neq.
  - apply or_num_nonzero. discriminate.
Qed.

Lemma In_filterBoolean {X} (l : list (option X)) (v : X) :
  In v (filterBoolean l) <-> In (Some v) l.
Proof.
  unfold filterBoolean. rewrite in_flat_map. split.
  - intros ([w|] & Hin & Hv); [|destruct Hv].
    destruct Hv as [<- | []]. exact Hin.
  - intros Hin. exists (Some v). split; [exact Hin | now left].
Qed.

Lemma In_graphTransactions result r :
  In r (graphTransactions result) <->
  exists tx, In tx result /\ graphTransaction tx = Some r.
Proof.
  unfold graphTransactions. rewrite In_filterBoolean, in_map_iff.
  split; intros (tx & H1 & H2); exists tx; tauto.
Qed.

Lemma addPeers_NoDup address s tx : NoDup s -> NoDup (addPeers address s tx).
Proof.
  intros H. unfold addPeers.
  destruct (Js.truthy (from tx) && negb (sameAddress (from tx) address)),
           (Js.truthy (to tx) && negb (sameAddress (to tx) address));
    repeat apply NodeFacts.add_NoDup; exact H.
Qed.

Lemma uniqueAddresses_NoDup address result :
  List.NoDup (uniqueAddresses address result).
Proof.
  apply NodeFacts.NoDup_stdpp_List. unfold uniqueAddresses.
  assert (NoDup ([] : list string)) as H0 by constructor.
  revert H0. generalize ([] : list string).
  induction result as [|tx l IH]; intros s H; simpl; [exact H|].
  apply IH, addPeers_NoDup, H.
Qed.

Lemma addPeers_In address s tx a :
  In a (addPeers address s tx) <->
  In a s
  \/ (a = from tx /\ Js.truthy a = true /\ sameAddress a address = false)
  \/ (a = to tx /\ Js.truthy a = true /\ sameAddress a address = false).
Proof.
  unfold addPeers.
  destruct (Js.truthy (from tx)) eqn:Tf,
           (sameAddress (from tx) address) eqn:Sf,
           (Js.truthy (to tx)) eqn:Tt,
           (sameAddress (to tx) address) eqn:St; simpl;
    rewrite ?add_In; split; intros H;
    repeat match goal with
           | H : _ \/ _ |- _ => destruct H
           | H : _ /\ _ |- _ => destruct H
           end; subst; try tauto; try congruence;
    intuition congruence.
Qed.

Lemma uniqueAddresses_In address result a :
  In a (uniqueAddresses address result) <->
  exists tx, In tx result /\
    ((a = from tx \/ a = to tx)
     /\ Js.truthy a = true /\ sameAddress a address = false).
Proof.
  unfold uniqueAddresses.
  assert (forall s,
            In a (fold_left (addPeers address) result s) <->
            In a s \/
            exists tx, In tx result /\
              ((a = from tx \/ a = to tx)
               /\ Js.truthy a = true /\ sameAddress a address = false))
    as Hgen.
  { induction result as [|t l IH]; intros s; simpl.
    - split; [now left | intros [H | (tx & [] & _)]; exact H].
    - rewrite IH, addPeers_In. split.
      + intros [[H | [H | H]] | (tx & Hin & H)].
        * now left.
        * right. exists t. split; [now left | tauto].
        * right. exists t. split; [now left | tauto].
        * right. exists tx. split; [now right | exact H].
      + intros [H | (tx & [<- | Hin] & [[E | E] H])].
        * left. now left.
        * left. right. left. tauto.
        * left. right. right. tauto.
        * right. exists tx. tauto.
        * right. exists tx. tauto. }
  rewrite Hgen. split; [intros [[] | H]; exact H | now right].
Qed.

(** The shape of the records pushed for one connected address. *)
Lemma connections_In address result a r :
  In r (connections address result a) ->
  (exists tx0 rest,
     incomingTxs address result a = tx0 :: rest
     /\ r = Transaction.mk a address
              (totalAmount (incomingTxs address result a))
              (formattedDate tx0) (hash tx0) incoming 0)
  \/
  (exists tx0 rest,
     outgoingTxs address result a = tx0 :: rest
     /\ r = Transaction.mk address a
              (totalAmount (outgoingTxs address result a))
              (formattedDate tx0) (hash tx0) outgoing 0).
Proof.
  unfold connections. intros Hin. apply in_app_or in Hin as [Hin | Hin].
  - left. destruct (incomingTxs address result a) as [|tx0 rest];
      [destruct Hin|].
    destruct Hin as [<- | []]. now exists tx0, rest.
  - right. destruct (outgoingTxs address result a) as [|tx0 rest];
      [destruct Hin|].
    destruct Hin as [<- | []]. now exists tx0, rest.
Qed.

End RouteFacts.

Import WalletRoute.

(** X7: every record of the route's per-transaction list
    [graphTransactions] passes the validity filter of the graph
    component, which therefore drops none of them; each has a non-zero
    amount and ends that differ even up to letter case. *)
Theorem route_records_pass_validity_filter result :
  validTransactions (graphTransactions result) = graphTransactions result
  /\ forall r, In r (graphTransactions result) ->
       isValid r = true
       /\ sameAddress (Transaction.source r) (Transaction.target r) = false
       /\ ~ Transaction.amount r == 0.
Proof.
  assert (forall r, In r (graphTransactions result) ->
       isValid r = true
       /\ sameAddress (Transaction.source r) (Transaction.target r) = false
       /\ ~ Transaction.amount r == 0) as H.
  { intros r Hr. apply RouteFacts.In_graphTransactions in Hr as (tx & _ & E).
    apply RouteFacts.graphTransaction_Some in E. tauto. }
  split; [|exact H].
  apply BuilderFacts.filter_all. intros r Hr. now apply H.
Qed.

(** X8: every aggregated record of the route joins the requested
    address and a different, non-empty address: it passes the validity
    filter of the graph component, its gas cost is 0, and the direction
    the component derives for its link (outgoing exactly when the source
    is the focus address) is the direction the route gave it. *)
Theorem aggregated_records_touch_focus address result r :
  Js.truthy address = true ->
  In r (simplifiedGraphTransactions address result) ->
  isValid r = true
  /\ directionOf address r = Transaction.direction r
  /\ Transaction.gasCost r = 0
  /\ ((Transaction.direction r = incoming
       /\ Transaction.target r = address
       /\ sameAddress (Transaction.source r) address = false)
      \/ (Transaction.direction r = outgoing
          /\ Transaction.source r = address
          /\ sameAddress (Transaction.target r) address = false)).
Proof.
  intros Ha Hr. unfold simplifiedGraphTransactions in Hr.
  apply in_flat_map in Hr as (a & Hin & Hr).
  apply RouteFacts.uniqueAddresses_In in Hin as (_ & _ & _ & Ta & Sa).
  pose proof (RouteFacts.sameAddress_false_neq _ _ Sa) as Hne.
  assert (a <> "" /\ address <> "") as [Na Nad].
  { unfold Js.truthy in *. rewrite negb_true_iff in Ta, Ha.
    now apply String.eqb_neq in Ta, Ha. }
  apply RouteFacts.connections_In in Hr
    as [(tx0 & rest & _ & ->) | (tx0 & rest & _ & ->)]; simpl.
  - split; [apply BuilderFacts.isValid_spec; simpl; tauto|].
    split.
    { unfold directionOf. simpl.
      destruct (String.eqb_spec a address); [contradiction | reflexivity]. }
    split; [reflexivity|]. left. tauto.
  - split; [apply BuilderFacts.isValid_spec; simpl; intuition congruence|].
    split.
    { unfold directionOf. simpl. now rewrite String.eqb_refl. }
    split; [reflexivity|]. right. tauto.
Qed.

Lemma aggregated_records_touch_focus_witness :
  let r := Transaction.mk MoreSamples.addr MoreSamples.peer 3 "1/1/2024"
                          "h1" outgoing 0 in
  isValid r = true
  /\ directionOf MoreSamples.addr r = Transaction.direction r
  /\ Transaction.gasCost r = 0
  /\ ((Transaction.direction r = incoming
       /\ Transaction.target r = MoreSamples.addr
       /\ sameAddress (Transaction.source r) MoreSamples.addr = false)
      \/ (Transaction.direction r = outgoing
          /\ Transaction.source r = MoreSamples.addr
          /\ sameAddress (Transaction.target r) MoreSamples.addr = false)).
Proof.
  apply (aggregated_records_touch_focus MoreSamples.addr MoreSamples.history).
  - reflexivity.
  - vm_compute. right. left. reflexivity.
Defined.

Module AggregationFacts.
Import RouteFacts.

Lemma connections_ends address result a :
  a <> address ->
  List.NoDup (List.map ends (connections address result a))
  /\ forall e, In e (List.map ends (connections address result a)) ->
               e = (a, address) \/ e = (address, a).
Proof.
  intros Hne. unfold connections.
  destruct (incomingTxs address result a) as [|i0 ri],
           (outgoingTxs address result a) as [|o0 ro]; simpl.
  - split; [constructor | intros e []].
  - split; [repeat constructor; intros [] | intros e [<- | []]; now right].
  - split; [repeat constructor; intros [] | intros e [<- | []]; now left].
  - split.
    + constructor; [|repeat constructor; intros []].
      intros [E | []]. unfold ends in E. simpl in E. congruence.
    + intros e [<- | [<- | []]]; [now left | now right].
Qed.

Lemma simplified_ends_NoDup address result ks :
  List.NoDup ks -> (forall a, In a ks -> a <> address) ->
  List.NoDup (List.map ends (flat_map (connections address result) ks)).
Proof.
  induction ks as [|a ks IH]; intros Hnd Hne; simpl; [constructor|].
  apply List.NoDup_cons_iff in Hnd as [Ha Hnd].
  rewrite List.map_app.
  destruct (connections_ends address result a (Hne a (or_introl eq_refl)))
    as [Hn1 He1].
  apply List.NoDup_app; [exact Hn1 | |].
  - apply IH; [exact Hnd | intros b Hb; apply Hne; now right].
  - intros e H1 H2. apply He1 in H1.
    apply in_map_iff in H2 as (r & <- & Hr).
    apply in_flat_map in Hr as (b & Hb & Hr).
    assert (b <> address) as Hbne by (apply Hne; now right).
    destruct (connections_ends address result b Hbne) as [_ He2].
    assert (In (ends r) (List.map ends (connections address result b)))
      as Hr' by now apply in_map.
    apply He2 in Hr'.
    assert (a <> b) as Hab by (intros ->; contradiction).
    assert (a <> address) as Haa by (apply Hne; now left).
    destruct H1 as [E1 | E1], Hr' as [E2 | E2]; rewrite E1 in E2;
      injection E2; intros; congruence.
Qed.

End AggregationFacts.


(** X10: when nothing could be aggregated although the per-transaction
    list is not empty, the response carries one record only, and both
    ends of that record are the requested address; the graph component
    rejects it at its validity filter and, when it shows no error yet,
    ends with the "no valid transaction data" message, without a
    simulation. *)
Theorem last_resort_is_self_referential
    address nowIso result explored detailLevel st :
  simplifiedGraphTransactions address result = [] ->
  graphTransactions result <> [] ->
  svgMounted st = true ->
  exists r,
    responseGraphTransactions address nowIso result = [r]
    /\ Transaction.source r = address
    /\ Transaction.target r = address
    /\ validTransactions [r] = []
    /\ error (build (responseGraphTransactions address nowIso result)
                    address explored detailLevel st)
       = Some msgNoValidData
    /\ simulation (build (responseGraphTransactions address nowIso result)
                         address explored detailLevel st) = None.
Proof.
  intros Hs Hg Hm. unfold responseGraphTransactions. rewrite Hs. simpl.
  destruct (graphTransactions result) as [|firstTx rest] eqn:E;
    [contradiction|].
  assert (In firstTx (graphTransactions result)) as Hin
    by (rewrite E; now left).
  apply RouteFacts.In_graphTransactions in Hin as (tx & _ & Htx).
  apply RouteFacts.graphTransaction_Some in Htx as (Hv & _).
  apply BuilderFacts.isValid_spec in Hv as (_ & _ & Hd).
  apply String.eqb_neq in Hd. simpl. rewrite Hd. simpl.
  eexists. split; [reflexivity|]. simpl.
  assert (forall s : string,
            (if String.eqb s address then s else address) = address) as Hsame.
  { intros s. destruct (String.eqb_spec s address); congruence. }
  rewrite !Hsame. split; [reflexivity|]. split; [reflexivity|].
  assert (forall a d i dir gc,
            isValid (Transaction.mk address address a d i dir gc) = false)
    as Hinv.
  { intros. unfold isValid. simpl. rewrite String.eqb_refl. simpl.
    apply andb_false_r. }
  split; [unfold validTransactions; simpl; now rewrite Hinv|].
  unfold build, graphEffect, limitedTransactions, validTransactions.
  rewrite Hm. simpl. rewrite Hinv. simpl.
  destruct (transactionLimit detailLevel); simpl; now split.
Qed.

Lemma last_resort_is_self_referential_witness :
  exists r,
    responseGraphTransactions MoreSamples.addr "now" MoreSamples.creation
      = [r]
    /\ Transaction.source r = MoreSamples.addr
    /\ Transaction.target r = MoreSamples.addr
    /\ validTransactions [r] = []
    /\ error (build (responseGraphTransactions MoreSamples.addr "now"
                       MoreSamples.creation)
                    MoreSamples.addr ∅ medium Samples.st0)
       = Some msgNoValidData
    /\ simulation (build (responseGraphTransactions MoreSamples.addr "now"
                            MoreSamples.creation)
                         MoreSamples.addr ∅ medium Samples.st0) = None.
Proof.
  apply (last_resort_is_self_referential
           MoreSamples.addr "now" MoreSamples.creation ∅ medium Samples.st0).
  - reflexivity.
  - vm_compute. discriminate.
  - reflexivity.
Defined.

Module PipelineFacts.
Import RouteFacts.

(** What the response carries: the aggregated records when there are
    any; else one record from the address to itself when the
    per-transaction list is not empty; else nothing. *)
Lemma response_cases address nowIso result :
  (simplifiedGraphTransactions address result <> []
   /\ responseGraphTransactions address nowIso result
      = simplifiedGraphTransactions address result)
  \/ (graphTransactions result = []
      /\ responseGraphTransactions address nowIso result = [])
  \/ (exists r, responseGraphTransactions address nowIso result = [r]
                /\ isValid r = false).
Proof.
  unfold responseGraphTransactions.
  destruct (simplifiedGraphTransactions address result) as [|s0 ss] eqn:Es.
  - right. simpl.
    destruct (graphTransactions result) as [|firstTx rest] eqn:E;
      [left; now split|].
    right. assert (In firstTx (graphTransactions result)) as Hin
      by (rewrite E; now left).
    apply In_graphTransactions in Hin as (tx & _ & Htx).
    apply graphTransaction_Some in Htx as (Hv & _).
    apply BuilderFacts.isValid_spec in Hv as (_ & _ & Hd).
    apply String.eqb_neq in Hd. simpl. rewrite Hd. simpl.
    eexists. split; [reflexivity|].
    assert (forall s : string,
              (if String.eqb s address then s else address) = address)
      as Hsame.
    { intros s. destruct (String.eqb_spec s address); congruence. }
    rewrite !Hsame. unfold isValid. simpl. rewrite String.eqb_refl.
    apply andb_false_r.
  - left. split; [discriminate | reflexivity].
Qed.

End PipelineFacts.

(** X11: the graph drawn from the route's response is a star around
    the requested address: whenever the component creates a simulation
    on the response, every link has the focus node at one end, at its
    source when the link is outgoing and at its target when incoming. *)
Theorem response_graph_is_a_star
    address nowIso result explored detailLevel st g :
  Js.truthy address = true ->
  simulation (build (responseGraphTransactions address nowIso result)
                    address explored detailLevel st) = Some g ->
  forall l, In l (links g) ->
    (Link.direction l = outgoing
     /\ (id <$> Link.source l) = Some address
     /\ (id <$> Link.target l) <> Some address)
    \/ (Link.direction l = incoming
        /\ (id <$> Link.target l) = Some address
        /\ (id <$> Link.source l) <> Some address).
Proof.
  intros Ha Hg l Hl. unfold build in Hg.
  pose proof Hg as Hg0.
  apply BuildResult.simulation_Some in Hg as (Hne & Hn & Hlinks & _).
  set (resp := responseGraphTransactions address nowIso result) in *.
  set (limited := limitedTransactions (transactionLimit detailLevel) resp)
    in *.
  rewrite Hlinks in Hl. apply in_map_iff in Hl as (tx & <- & Hin).
  pose proof (BuilderFacts.limited_valid _ _ _ Hin) as Hv.
  destruct (BuilderFacts.nodeIds_ends address limited tx Hin Hv) as [Hs Ht].
  assert (List.map id (nodes g) = nodeIds address limited) as Ig
    by (rewrite Hn; apply NodeFacts.ids_mkNodes).
  simpl. rewrite !ViewFacts.nodeMap_lookup_id by (rewrite Ig; assumption).
  assert (In tx resp) as Hresp.
  { unfold limited, limitedTransactions in Hin.
    apply BuilderFacts.In_firstn in Hin. unfold validTransactions in Hin.
    now apply filter_In in Hin. }
  destruct (PipelineFacts.response_cases address nowIso result)
    as [[_ E] | [[_ E] | (r & E & Hr)]]; fold resp in E;
    rewrite E in Hresp.
  - unfold simplifiedGraphTransactions in Hresp.
    apply in_flat_map in Hresp as (a & Hua & Hc).
    apply RouteFacts.uniqueAddresses_In in Hua as (_ & _ & _ & _ & Sa).
    pose proof (RouteFacts.sameAddress_false_neq _ _ Sa) as Hane.
    apply RouteFacts.connections_In in Hc
      as [(tx0 & rest & _ & ->) | (tx0 & rest & _ & ->)];
      unfold directionOf; simpl.
    + right. destruct (String.eqb_spec a address); [contradiction|].
      split; [reflexivity|]. split; [reflexivity | congruence].
    + left. rewrite String.eqb_refl.
      split; [reflexivity|]. split; [reflexivity | congruence].
  - destruct Hresp.
  - destruct Hresp as [<- | []]. congruence.
Qed.

Lemma response_graph_is_a_star_witness :
  let l := MoreSamples.historyLink in
  (Link.direction l = outgoing
   /\ (id <$> Link.source l) = Some MoreSamples.addr
   /\ (id <$> Link.target l) <> Some MoreSamples.addr)
  \/ (Link.direction l = incoming
      /\ (id <$> Link.target l) = Some MoreSamples.addr
      /\ (id <$> Link.source l) <> Some MoreSamples.addr).
Proof.
  apply (response_graph_is_a_star MoreSamples.addr "now"
           MoreSamples.history ∅ medium Samples.st0
           MoreSamples.historyGraph).
  - reflexivity.
  - vm_compute. reflexivity.
  - vm_compute. right. left. reflexivity.
Defined.

(** ** Further properties of the layout *)

Module FreezeFacts.
Import LayoutFacts.

Lemma freezeNode_idem d : freezeNode (freezeNode d) = freezeNode d.
Proof.
  unfold freezeNode.
  destruct (truthyNum (x d) && truthyNum (y d)) eqn:E; simpl;
    rewrite E; [|reflexivity].
  unfold setPin. simpl. now destruct (fx d), (fy d).
Qed.

Lemma truthy_above (q : Q) : 100 <= q -> truthyNum q = true.
Proof.
  intros H. unfold truthyNum. apply negb_true_iff.
  destruct (Qeq_bool q 0) eqn:E; [|reflexivity].
  apply Qeq_bool_iff in E. lra.
Qed.

(** A node just after a tick and the freeze: pinned on both axes, on
    coordinates that the listener's clamp leaves alone. *)
Lemma freeze_step_lookup forces width s i d :
  200 <= width ->
  simNodes (freeze (step forces width s)) !! i = Some d ->
  exists px py,
    fx d = Some px /\ fy d = Some py
    /\ x d == clamp width px /\ y d == clamp height py.
Proof.
  intros Hw Hl. unfold freeze, step, d3_tick, tickListener in Hl.
  simpl in Hl. rewrite !list_lookup_fmap in Hl.
  destruct (forces _ (simNodes s) !! i) as [d1|] eqn:E1; [|discriminate Hl].
  simpl in Hl. injection Hl as <-.
  set (c := integrate d1).
  assert (fx c = fx d1 /\ fy c = fy d1) as [Fx Fy].
  { unfold c, integrate. now destruct (fx d1), (fy d1). }
  assert (forall f, fx d1 = Some f -> x c = f) as Xp.
  { intros f Hf. unfold c, integrate. rewrite Hf. now destruct (fy d1). }
  assert (forall f, fy d1 = Some f -> y c = f) as Yp.
  { intros f Hf. unfold c, integrate. rewrite Hf. now destruct (fx d1). }
  unfold freezeNode. simpl.
  rewrite (truthy_above (clamp width (x c))) by apply clamp_lower.
  rewrite (truthy_above (clamp height (y c))) by apply clamp_lower.
  simpl. rewrite Fx, Fy.
  assert (clamp width (x c) == clamp width (clamp width (x c))) as Ix.
  { symmetry. apply clamp_inside.
    split; [apply clamp_lower | now apply clamp_upper]. }
  assert (clamp height (y c) == clamp height (clamp height (y c))) as Iy.
  { symmetry. apply clamp_inside.
    split; [apply clamp_lower | apply clamp_upper; discriminate]. }
  destruct (fx d1) as [f|] eqn:Hf, (fy d1) as [h|] eqn:Hh;
    eexists _, _; (split; [reflexivity|]); (split; [reflexivity|]);
    rewrite ?(Xp f eq_refl), ?(Yp h eq_refl); split;
    try reflexivity; assumption.
Qed.

Lemma freezeNode_frame d :
  let d' := freezeNode d in
  datum d' = datum d /\ x d' = x d /\ y d' = y d
  /\ vx d' = vx d /\ vy d' = vy d
  /\ (forall p, fx d = Some p -> fx d' = Some p)
  /\ (forall p, fy d = Some p -> fy d' = Some p)
  /\ (x d == 0 \/ y d == 0 -> d' = d)
  /\ (~ x d == 0 -> ~ y d == 0 ->
      fx d' = Some (default (x d) (fx d))
      /\ fy d' = Some (default (y d) (fy d))).
Proof.
  cbv zeta. unfold freezeNode.
  assert (forall q, truthyNum q = false -> q == 0) as Hf.
  { intros q E. unfold truthyNum in E. apply negb_false_iff in E.
    now apply Qeq_bool_iff in E. }
  assert (forall q, truthyNum q = true -> ~ q == 0) as Ht.
  { intros q E H. unfold truthyNum in E. apply negb_true_iff in E.
    apply Qeq_bool_iff in H. congruence. }
  assert (truthyNum (x d) = false \/ truthyNum (y d) = false ->
          ~ x d == 0 -> ~ y d == 0 -> False) as Hz.
  { intros [E | E] Hx Hy; apply Hf in E; contradiction. }
  assert (truthyNum (x d) = true -> truthyNum (y d) = true ->
          x d == 0 \/ y d == 0 -> False) as Hnz.
  { intros Ex Ey [E | E]; [now apply (Ht _ Ex) | now apply (Ht _ Ey)]. }
  destruct (truthyNum (x d)) eqn:Ex, (truthyNum (y d)) eqn:Ey; simpl.
  2-4: do 5 (split; [reflexivity|]);
       (split; [intros p Hp; exact Hp|]);
       (split; [intros p Hp; exact Hp|]);
       (split; [intros _; reflexivity|]);
       intros Hx Hy; exfalso; apply Hz; auto.
  do 5 (split; [reflexivity|]).
  split; [intros p Hp; now rewrite Hp|].
  split; [intros p Hp; now rewrite Hp|].
  split; [intros H; exfalso; now apply Hnz|].
  intros _ _. split; [now destruct (fx d) | now destruct (fy d)].
Qed.

End FreezeFacts.

(** X13: the freeze after a tick leaves a layout that no longer moves.
    In a container at least 200 pixels wide, every node is pinned on
    both axes once a tick and the freeze timer have run; whatever
    forces act in any number of later ticks (a drag restarts the
    simulation), every node keeps its pins and its coordinates. *)
Theorem frozen_layout_is_still forces forces' width s n i d :
  keepsPins forces' ->
  200 <= width ->
  simNodes (freeze (step forces width s)) !! i = Some d ->
  is_Some (fx d) /\ is_Some (fy d)
  /\ exists d',
       simNodes (run forces' width (freeze (step forces width s))
                     (repeat Tick n)) !! i = Some d'
       /\ fx d' = fx d /\ fy d' = fy d
       /\ x d' == x d /\ y d' == y d.
Proof.
  intros Hk Hw Hl.
  destruct (FreezeFacts.freeze_step_lookup forces width s i d Hw Hl)
    as (px & py & Hx & Hy & Cx & Cy).
  split; [now rewrite Hx|]. split; [now rewrite Hy|].
  destruct n as [|n].
  - exists d. simpl. now repeat split.
  - assert (pinnedAt i px py (freeze (step forces width s))) as Hp
      by now exists d.
    assert (List.Forall (leaves i) (repeat Tick (S n))) as Hes.
    { apply List.Forall_forall. intros e He.
      apply repeat_spec in He. now subst. }
    destruct (LayoutFacts.run_settles forces' width i px py
                (repeat Tick (S n)) (freeze (step forces width s))
                Hk Hes (or_introl eq_refl) Hp)
      as (d' & Hd' & Fx & Fy & Ex & Ey).
    exists d'. split; [exact Hd'|].
    rewrite Fx, Fy, Hx, Hy, Ex, Ey, Cx, Cy. now repeat split.
Qed.

Lemma frozen_layout_is_still_witness :
  let s1 := freeze (step Samples.drift 1000 Samples.sim0) in
  let d := MoreSamples.frozenB in
  is_Some (fx d) /\ is_Some (fy d)
  /\ exists d',
       simNodes (run Samples.drift 1000 s1 (repeat Tick 3)) !! 1%nat
         = Some d'
       /\ fx d' = fx d /\ fy d' = fy d
       /\ x d' == x d /\ y d' == y d.
Proof.
  assert (200 <= 1000) as Hw by (vm_compute; discriminate).
  apply (frozen_layout_is_still Samples.drift Samples.drift 1000
           Samples.sim0 3 1 MoreSamples.frozenB
           LayoutFacts.drift_keepsPins Hw).
  vm_compute. reflexivity.
Defined.

(** X14: the freeze timer stops the simulation and is idempotent.  It
    changes no coordinate and no velocity and keeps every pin that is
    already set; a node whose x and y are both non-zero ends up pinned
    on both axes, at its coordinate where it had no pin, and a node
    with x or y equal to zero is left exactly as it was. *)
Theorem freeze_is_idempotent (s : Simulation) :
  freeze (freeze s) = freeze s
  /\ running (freeze s) = false
  /\ Forall2
       (fun d d' =>
          datum d' = datum d /\ x d' = x d /\ y d' = y d
          /\ vx d' = vx d /\ vy d' = vy d
          /\ (forall p, fx d = Some p -> fx d' = Some p)
          /\ (forall p, fy d = Some p -> fy d' = Some p)
          /\ (x d == 0 \/ y d == 0 -> d' = d)
          /\ (~ x d == 0 -> ~ y d == 0 ->
              fx d' = Some (default (x d) (fx d))
              /\ fy d' = Some (default (y d) (fy d))))
       (simNodes s) (simNodes (freeze s)).
Proof.
  split.
  { unfold freeze. simpl. f_equal. rewrite <- list_fmap_compose.
    apply list_fmap_ext. intros _ d _. apply FreezeFacts.freezeNode_idem. }
  split; [reflexivity|].
  unfold freeze. simpl. apply Forall2_fmap_r, Forall_Forall2_diag.
  apply Forall_true. intros d. apply FreezeFacts.freezeNode_frame.
Qed.

(** X15: the drag handlers move nothing by themselves.  [dragstarted]
    and [dragged] keep the coordinates, the velocities and the datum of
    every node, and change no node but the dragged one (none at all
    when the index is out of range); [dragended] changes no node and
    does not restart or stop the simulation. *)
Theorem drag_handlers_move_nothing (event : DragEvent) (i : nat)
    (s : Simulation) :
  (forall h, h = dragstarted \/ h = dragged ->
     length (simNodes (h event i s)) = length (simNodes s)
     /\ (forall j d, simNodes s !! j = Some d ->
           exists d', simNodes (h event i s) !! j = Some d'
                      /\ datum d' = datum d /\ x d' = x d /\ y d' = y d
                      /\ vx d' = vx d /\ vy d' = vy d
                      /\ (j <> i -> d' = d))
     /\ ((length (simNodes s) <= i)%nat ->
         simNodes (h event i s) = simNodes s))
  /\ simNodes (dragended event i s) = simNodes s
  /\ running (dragended event i s) = running s
  /\ alpha (dragended event i s) = alpha s.
Proof.
  split.
  - intros h Hh.
    assert (exists f,
              simNodes (h event i s) = alter f i (simNodes s)
              /\ forall d, datum (f d) = datum d /\ x (f d) = x d
                           /\ y (f d) = y d /\ vx (f d) = vx d
                           /\ vy (f d) = vy d) as (f & Ef & Hf).
    { destruct Hh as [-> | ->].
      - exists (fun d => setPin (Some (x d)) (Some (y d)) d).
        split; [|now intros d]. unfold dragstarted.
        now destruct (active event =? 0)%nat.
      - exists (setPin (Some (ev_x event)) (Some (ev_y event))).
        split; [reflexivity | now intros d]. }
    rewrite Ef. split; [apply length_alter|]. split.
    + intros j d Hj. destruct (decide (i = j)) as [<- | Hne].
      * exists (f d). rewrite list_lookup_alter_eq, Hj.
        split; [reflexivity|]. destruct (Hf d) as (? & ? & ? & ? & ?).
        repeat split; try assumption. intros; contradiction.
      * exists d. rewrite list_lookup_alter_ne by exact Hne.
        now repeat split.
    + intros Hlen. apply list_eq. intros j.
      destruct (decide (i = j)) as [<- | Hne].
      * rewrite list_lookup_alter_eq.
        now rewrite (lookup_ge_None_2 _ _ Hlen).
      * now rewrite list_lookup_alter_ne.
  - unfold dragended. now destruct (active event =? 0)%nat.
Qed.

(** X16: starting a drag does not make the node jump.  [dragstarted]
    pins the node where it is; after the next tick, whatever the forces,
    the node sits at its own position clamped by the listener, which is
    its position when it was inside the bounds.  A first gesture also
    restarts the simulation with an alpha target of 0.3. *)
Theorem drag_start_holds_node forces width event i s d :
  keepsPins forces ->
  simNodes s !! i = Some d ->
  (exists d',
     simNodes (step forces width (dragstarted event i s)) !! i = Some d'
     /\ fx d' = Some (x d) /\ fy d' = Some (y d)
     /\ x d' = clamp width (x d) /\ y d' = clamp height (y d)
     /\ (inBounds width d -> x d' == x d /\ y d' == y d))
  /\ (active event = 0%nat ->
      running (dragstarted event i s) = true
      /\ alphaTarget (dragstarted event i s) = 3 # 10).
Proof.
  intros Hk Hl. split.
  - assert (pinnedAt i (x d) (y d) (dragstarted event i s)) as Hp.
    { exists (setPin (Some (x d)) (Some (y d)) d).
      split; [|now split]. unfold dragstarted.
      destruct (active event =? 0)%nat; simpl;
        now rewrite list_lookup_alter_eq, Hl. }
    destruct (LayoutFacts.step_settles forces width i _ _ _ Hk Hp)
      as (d' & Hd' & Fx & Fy & Ex & Ey).
    exists d'. split; [exact Hd'|]. split; [exact Fx|].
    split; [exact Fy|]. split; [exact Ex|]. split; [exact Ey|].
    intros [Bx By]. rewrite Ex, Ey.
    split; apply LayoutFacts.clamp_inside; assumption.
  - intros Ha. unfold dragstarted. rewrite Ha. simpl. now split.
Qed.

Lemma drag_start_holds_node_witness :
  let d := Samples.node Samples.C 650 300 Samples.free in
  (exists d',
     simNodes (step Samples.drift 1000
                    (dragstarted (Samples.at_ 650 300) 2 Samples.sim0))
       !! 2%nat = Some d'
     /\ fx d' = Some (x d) /\ fy d' = Some (y d)
     /\ x d' = clamp 1000 (x d) /\ y d' = clamp height (y d)
     /\ (inBounds 1000 d -> x d' == x d /\ y d' == y d))
  /\ (active (Samples.at_ 650 300) = 0%nat ->
      running (dragstarted (Samples.at_ 650 300) 2 Samples.sim0) = true
      /\ alphaTarget (dragstarted (Samples.at_ 650 300) 2 Samples.sim0)
         = 3 # 10).
Proof.
  apply (drag_start_holds_node Samples.drift 1000 (Samples.at_ 650 300) 2
           Samples.sim0 (Samples.node Samples.C 650 300 Samples.free)).
  - exact LayoutFacts.drift_keepsPins.
  - reflexivity.
Defined.

Module FallbackFacts.
Import BuilderFacts.

Lemma uniqueAddresses_spec focus valid :
  List.NoDup (TransactionGraph.uniqueAddresses focus valid)
  /\ forall a, In a (TransactionGraph.uniqueAddresses focus valid) <->
       a <> focus /\
       exists tx, In tx valid /\
                  (a = Transaction.source tx \/ a = Transaction.target tx).
Proof.
  unfold TransactionGraph.uniqueAddresses.
  set (f := fun (s : list string) (tx : Transaction.t) =>
         let s := if negb (String.eqb (Transaction.source tx) focus)
                  then Js.add (Transaction.source tx) s else s in
         if negb (String.eqb (Transaction.target tx) focus)
         then Js.add (Transaction.target tx) s else s).
  assert (forall s tx a,
            In a (f s tx) <->
            In a s \/ (a <> focus /\ (a = Transaction.source tx
                                      \/ a = Transaction.target tx)))
    as Hstep.
  { intros s tx a. unfold f.
    destruct (String.eqb_spec (Transaction.source tx) focus) as [Es | Ns],
             (String.eqb_spec (Transaction.target tx) focus) as [Et | Nt];
      simpl; rewrite ?add_In; split; intros H;
      intuition (subst; try congruence; auto). }
  assert (forall s tx, NoDup s -> NoDup (f s tx)) as Hnd.
  { intros s tx H. unfold f.
    destruct (negb (String.eqb (Transaction.source tx) focus)),
             (negb (String.eqb (Transaction.target tx) focus));
      repeat apply NodeFacts.add_NoDup; exact H. }
  assert (forall s,
            NoDup s ->
            NoDup (fold_left f valid s)
            /\ forall a, In a (fold_left f valid s) <->
                 In a s \/ (a <> focus /\
                   exists tx, In tx valid /\
                     (a = Transaction.source tx
                      \/ a = Transaction.target tx))) as Hgen.
  { induction valid as [|t l IH]; intros s Hs; simpl.
    - split; [exact Hs|]. intros a.
      split; [now left | intros [H | (_ & tx & [] & _)]; exact H].
    - destruct (IH (f s t) (Hnd s t Hs)) as [N I]. split; [exact N|].
      intros a. rewrite I, Hstep. split.
      + intros [[H | [Hne H]] | (Hne & tx & Hin & H)].
        * now left.
        * right. split; [exact Hne|]. exists t. split; [now left | exact H].
        * right. split; [exact Hne|]. exists tx. split; [now right|exact H].
      + intros [H | (Hne & tx & [<- | Hin] & H)].
        * left. now left.
        * left. right. now split.
        * right. split; [exact Hne|]. now exists tx. }
  destruct (Hgen [] ltac:(constructor)) as [N I].
  split; [now apply NodeFacts.NoDup_stdpp_List|].
  intros a. rewrite I. split; [intros [[] | H]; exact H | now right].
Qed.

Lemma directLinksOf_length focus m valid a :
  (length (directLinksOf focus m valid a) <= 2)%nat.
Proof.
  unfold directLinksOf.
  destruct (negb (mapHas m a) || negb (mapHas m focus)); [simpl; lia|].
  rewrite length_app.
  destruct (List.filter _ valid), (List.filter _ valid); simpl; lia.
Qed.

(** The two ends of a link pushed for an address. *)
Lemma directLinksOf_ends focus ns valid b l :
  In l (directLinksOf focus (nodeMap ns) valid b) ->
  ((id <$> Link.source l) = Some b /\ (id <$> Link.target l) = Some focus)
  \/ ((id <$> Link.source l) = Some focus /\ (id <$> Link.target l) = Some b).
Proof.
  intros Hl. unfold directLinksOf in Hl.
  destruct (mapHas (nodeMap ns) b) eqn:Ma; [|destruct Hl].
  destruct (mapHas (nodeMap ns) focus) eqn:Mf; [|destruct Hl]. simpl in Hl.
  assert (forall k, mapHas (nodeMap ns) k = true ->
                    id <$> (nodeMap ns !! k) = Some k) as Hid.
  { intros k Hk. unfold mapHas in Hk. apply bool_decide_eq_true in Hk.
    destruct Hk as [n Hn]. rewrite Hn. simpl. f_equal.
    now apply nodeMap_Some in Hn. }
  apply in_app_or in Hl as [Hl | Hl].
  - left. destruct (List.filter _ valid) as [|tx0 rest];
      [destruct Hl|].
    destruct Hl as [<- | []]. simpl. split; now apply Hid.
  - right.
    destruct (List.filter
                (fun tx => String.eqb (Transaction.source tx) focus
                           && String.eqb (Transaction.target tx) b) valid)
      as [|tx0 rest]; [destruct Hl|].
    destruct Hl as [<- | []]. simpl. split; now apply Hid.
Qed.

Lemma filter_none {X} (P : X -> bool) (l : list X) :
  (forall x, In x l -> P x = false) -> List.filter P l = [].
Proof.
  induction l as [|x l IH]; intros H; simpl; [reflexivity|].
  rewrite (H x) by now left. apply IH. intros y Hy. apply H. now right.
Qed.

Lemma filter_length {X} (P : X -> bool) (l : list X) :
  (length (List.filter P l) <= length l)%nat.
Proof.
  induction l as [|x l IH]; simpl; [lia|]. destruct (P x); simpl; lia.
Qed.

(** The links pushed for another address do not touch [a]. *)
Lemma directLinksOf_other focus ns valid a b :
  a <> focus -> b <> a ->
  List.filter
    (fun l => bool_decide ((id <$> Link.source l) = Some a
                           \/ (id <$> Link.target l) = Some a))
    (directLinksOf focus (nodeMap ns) valid b) = [].
Proof.
  intros Haf Hba. apply filter_none. intros l Hl.
  apply bool_decide_eq_false. intros Ht.
  apply directLinksOf_ends in Hl as [[Es Et] | [Es Et]];
    rewrite Es, Et in Ht; destruct Ht as [E | E]; congruence.
Qed.

Lemma touching_length focus ns valid a ps :
  a <> focus -> List.NoDup ps ->
  (length
     (List.filter
        (fun l => bool_decide ((id <$> Link.source l) = Some a
                               \/ (id <$> Link.target l) = Some a))
        (flat_map (directLinksOf focus (nodeMap ns) valid) ps)) <= 2)%nat.
Proof.
  intros Haf Hnd.
  assert (forall qs, ~ In a qs ->
            List.filter
              (fun l => bool_decide ((id <$> Link.source l) = Some a
                                     \/ (id <$> Link.target l) = Some a))
              (flat_map (directLinksOf focus (nodeMap ns) valid) qs) = [])
    as Hnone.
  { induction qs as [|b qs IH]; intros Hn; simpl; [reflexivity|].
    rewrite List.filter_app, IH by (intros H; apply Hn; now right).
    rewrite directLinksOf_other; [reflexivity | exact Haf|].
    intros ->. apply Hn. now left. }
  induction ps as [|b ps IH]; simpl; [lia|].
  apply List.NoDup_cons_iff in Hnd as [Hb Hnd].
  rewrite List.filter_app, length_app.
  destruct (String.string_dec b a) as [-> | Hba].
  - rewrite (Hnone ps Hb). simpl.
    pose proof (filter_length
                  (fun l => bool_decide ((id <$> Link.source l) = Some a
                                         \/ (id <$> Link.target l) = Some a))
                  (directLinksOf focus (nodeMap ns) valid a)).
    pose proof (directLinksOf_length focus (nodeMap ns) valid a). lia.
  - rewrite directLinksOf_other by assumption. simpl. now apply IH.
Qed.

End FallbackFacts.

(** X17: the fallback synthesis of the component, on any node list:
    the addresses it connects are pairwise distinct and never the focus
    address; at most two of its links touch the node of any one
    address other than the focus, so it emits at most twice as many
    links as addresses; and each link joins the focus node and the node
    of such an address: an incoming link runs from the address to the
    focus and carries the sum of the amounts of the valid records from
    the address to the focus, an outgoing link the reverse. *)
Theorem fallback_links_join_focus focus ns valid :
  let m := nodeMap ns in
  let peers := TransactionGraph.uniqueAddresses focus valid in
  List.NoDup peers
  /\ ~ In focus peers
  /\ (forall a, a <> focus ->
        (length
           (List.filter
              (fun l => bool_decide ((id <$> Link.source l) = Some a
                                     \/ (id <$> Link.target l) = Some a))
              (directLinks focus m valid)) <= 2)%nat)
  /\ (length (directLinks focus m valid) <= 2 * length peers)%nat
  /\ forall l, In l (directLinks focus m valid) ->
       exists a, In a peers /\ a <> focus
         /\ ((Link.direction l = incoming
              /\ (id <$> Link.source l) = Some a
              /\ (id <$> Link.target l) = Some focus
              /\ Link.value l
                 = sumAmounts
                     (List.filter
                        (fun tx => String.eqb (Transaction.source tx) a
                                   && String.eqb (Transaction.target tx)
                                                 focus) valid))
             \/ (Link.direction l = outgoing
                 /\ (id <$> Link.source l) = Some focus
                 /\ (id <$> Link.target l) = Some a
                 /\ Link.value l
                    = sumAmounts
                        (List.filter
                           (fun tx =>
                              String.eqb (Transaction.source tx) focus
                              && String.eqb (Transaction.target tx) a)
                           valid))).
Proof.
  intros m peers.
  destruct (FallbackFacts.uniqueAddresses_spec focus valid) as [Hnd Hin].
  fold peers in Hnd, Hin.
  split; [exact Hnd|]. split; [intros H; apply Hin in H; tauto|].
  split.
  { intros a Ha. unfold directLinks, m.
    now apply FallbackFacts.touching_length. }
  split.
  { unfold directLinks. fold peers. clear Hnd Hin.
    generalize peers as ps. intros ps.
    induction ps as [|a l IH]; simpl; [lia|].
    rewrite length_app.
    pose proof (FallbackFacts.directLinksOf_length focus m valid a). lia. }
  intros l Hl. unfold directLinks in Hl. fold peers in Hl.
  apply in_flat_map in Hl as (a & Ha & Hl).
  exists a. split; [exact Ha|].
  assert (a <> focus) as Hne by (apply Hin in Ha; tauto).
  split; [exact Hne|].
  unfold directLinksOf in Hl.
  destruct (mapHas m a) eqn:Ma; [|destruct Hl].
  destruct (mapHas m focus) eqn:Mf; [|destruct Hl]. simpl in Hl.
  assert (forall k, mapHas m k = true -> id <$> (m !! k) = Some k) as Hid.
  { intros k Hk. unfold mapHas in Hk. apply bool_decide_eq_true in Hk.
    destruct Hk as [n Hn]. rewrite Hn. simpl. f_equal.
    now apply BuilderFacts.nodeMap_Some in Hn. }
  apply in_app_or in Hl as [Hl | Hl].
  - left. destruct (List.filter _ valid) as [|tx0 rest] eqn:E;
      [destruct Hl|].
    destruct Hl as [<- | []]. simpl.
    split; [reflexivity|]. split; [now apply Hid|].
    split; [now apply Hid | reflexivity].
  - right.
    destruct (List.filter
                (fun tx => String.eqb (Transaction.source tx) focus
                           && String.eqb (Transaction.target tx) a) valid)
      as [|tx0 rest] eqn:E; [destruct Hl|].
    destruct Hl as [<- | []]. simpl.
    split; [reflexivity|]. split; [now apply Hid|].
    split; [now apply Hid | reflexivity].
Qed.

(** ** Properties of the transactions page *)

Module PageFacts.
Import Page.

Lemma lower_hex c : isHexDigit c = true -> isHexDigit (Js.lowerAscii c) = true.
Proof.
  intros H.
  destruct c as [[] [] [] [] [] [] [] []];
    vm_compute in H |- *; congruence.
Qed.

Lemma lower_allHex s : allHex s = true -> allHex (Js.toLowerCase s) = true.
Proof.
  induction s as [|c s IH]; simpl; [reflexivity|].
  intros H. apply andb_true_iff in H as [Hc Hs].
  now rewrite (lower_hex c Hc), (IH Hs).
Qed.

Lemma lower_length s : String.length (Js.toLowerCase s) = String.length s.
Proof. induction s as [|c s IH]; simpl; congruence. Qed.

Lemma firstn_min {X} (n : nat) (l : list X) :
  firstn (Nat.min n (length l)) l = firstn n l.
Proof.
  destruct (Nat.le_ge_cases n (length l)) as [H | H].
  - now rewrite Nat.min_l.
  - rewrite Nat.min_r by exact H.
    now rewrite firstn_all, firstn_all2.
Qed.

(** A slice that starts at a non-negative index. *)
Lemma slice_from {X} (l : list X) (start n : Z) :
  (0 <= start)%Z -> (0 <= n)%Z ->
  Js.slice l start (start + n)
  = firstn (Z.to_nat n) (skipn (Z.to_nat start) l).
Proof.
  intros Hs Hn. unfold Js.slice.
  destruct (start <? 0)%Z eqn:E1; [lia|].
  destruct (start + n <? 0)%Z eqn:E2; [lia|].
  set (len := Z.of_nat (length l)).
  destruct (Z.le_gt_cases len start) as [Hge | Hlt].
  - rewrite (skipn_all2 (n:=Z.to_nat start)) by lia.
    rewrite firstn_nil.
    rewrite Z.min_r by lia. rewrite Z.min_r by lia.
    replace (Z.to_nat (len - len)) with 0%nat by lia. reflexivity.
  - rewrite (Z.min_l start len) by lia.
    rewrite <- (firstn_min (Z.to_nat n)). f_equal.
    rewrite length_skipn. fold len. lia.
Qed.

Lemma firstn_plus {X} (a b : nat) (l : list X) :
  firstn (a + b) l = firstn a l ++ firstn b (skipn a l).
Proof.
  revert l. induction a as [|a IH]; intros l; simpl; [reflexivity|].
  destruct l as [|x l]; simpl; [now rewrite firstn_nil|].
  now rewrite IH.
Qed.

(** Consecutive chunks of [s] elements rebuild a prefix. *)
Lemma chunks_prefix {X} (s : nat) (l : list X) (n : nat) :
  concat (List.map (fun k => firstn s (skipn ((k - 1) * s) l)) (seq 1 n))
  = firstn (n * s) l.
Proof.
  induction n as [|n IH]; [reflexivity|].
  rewrite seq_S, List.map_app, concat_app, IH. simpl.
  rewrite app_nil_r. replace (n - 0)%nat with n by lia.
  replace (s + n * s)%nat with (n * s + s)%nat by lia.
  now rewrite firstn_plus.
Qed.

(** The number of pages, for a positive page size. *)
Lemma totalPages_bounds (txs : list Transaction.t) (size : Z) :
  (0 < size)%Z ->
  let T := totalPagesFor txs size in
  let len := Z.of_nat (length txs) in
  (1 <= T)%Z /\ (len <= T * size)%Z
  /\ (txs <> [] -> ((T - 1) * size < len)%Z).
Proof.
  intros Hs T len. unfold T, totalPagesFor.
  destruct txs as [|t txs]; simpl length.
  - simpl. split; [lia|]. split; [simpl in len; lia | congruence].
  - change (0 <? S (length txs))%nat with true. cbv iota.
    set (n := Z.of_nat (S (length txs))).
    assert (0 < n)%Z as Hn by (unfold n; lia).
    set (q := inject_Z n / inject_Z size).
    assert (0 < inject_Z size) as Hq.
    { unfold Qlt, inject_Z. simpl. lia. }
    assert (q * inject_Z size == inject_Z n) as Hmul.
    { unfold q. field. intros E. rewrite E in Hq. now apply Qlt_irrefl in Hq. }
    pose proof (Qle_ceiling q) as Hup.
    pose proof (Qceiling_lt q) as Hlo.
    assert (inject_Z n <= inject_Z (Qceiling q) * inject_Z size) as H1.
    { rewrite <- Hmul. apply Qmult_le_compat_r; [exact Hup | lra]. }
    assert (inject_Z (Qceiling q - 1) * inject_Z size < inject_Z n) as H2.
    { rewrite <- Hmul. apply Qmult_lt_compat_r; assumption. }
    rewrite <- inject_Z_mult in H1, H2.
    rewrite <- Zle_Qle in H1. rewrite <- Zlt_Qlt in H2.
    fold len in H1, H2. unfold len. fold n.
    split; [|split; [exact H1 | intros _; exact H2]].
    assert (0 < Qceiling q * size)%Z by lia. nia.
Qed.

End PageFacts.

Import Page.

(** X18: an address accepted by [isValidEthereumAddress] has exactly 42
    characters, starts with 0x and is not empty, and its lower-case
    form is accepted as well. *)
Theorem valid_address_shape (address : string) :
  isValidEthereumAddress address = true ->
  String.length address = 42%nat
  /\ (exists r, address = String "0" (String "x" r))
  /\ Js.truthy address = true
  /\ isValidEthereumAddress (Js.toLowerCase address) = true.
Proof.
  unfold isValidEthereumAddress. intros H.
  destruct address as [|c0 [|c1 r]]; try discriminate H;
    try (destruct c0 as [[] [] [] [] [] [] [] []]; discriminate H).
  destruct (Ascii.eqb_spec c0 "0") as [-> | N0];
    [|destruct c0 as [[] [] [] [] [] [] [] []]; try discriminate H;
      now contradiction N0].
  destruct (Ascii.eqb_spec c1 "x") as [-> | N1];
    [|destruct c1 as [[] [] [] [] [] [] [] []]; try discriminate H;
      now contradiction N1].
  apply andb_true_iff in H as [Hlen Hhex]. apply Nat.eqb_eq in Hlen.
  split; [simpl; now rewrite Hlen|].
  split; [now exists r|]. split; [reflexivity|].
  cbn [Js.toLowerCase].
  change (Js.lowerAscii "0") with "0"%char.
  change (Js.lowerAscii "x") with "x"%char.
  rewrite PageFacts.lower_length, Hlen, (PageFacts.lower_allHex r Hhex).
  reflexivity.
Qed.

Lemma valid_address_shape_witness :
  String.length MoreSamples.addr = 42%nat
  /\ (exists r, MoreSamples.addr = String "0" (String "x" r))
  /\ Js.truthy MoreSamples.addr = true
  /\ isValidEthereumAddress (Js.toLowerCase MoreSamples.addr) = true.
Proof.
  apply (valid_address_shape MoreSamples.addr). reflexivity.
Defined.

(** X19: for a positive page size the pages partition the list: the
    pages 1 to [totalPages], one after the other, are the transactions,
    each once and in order; there is always at least one page. *)
Theorem pages_partition_transactions (txs : list Transaction.t) (size : Z) :
  (0 < size)%Z ->
  let T := totalPagesFor txs size in
  (1 <= T)%Z
  /\ concat
       (List.map
          (fun k => getCurrentPageTransactions txs
                      (mkPaging (Z.of_nat k) size T))
          (seq 1 (Z.to_nat T)))
     = txs.
Proof.
  intros Hs T.
  destruct (PageFacts.totalPages_bounds txs size Hs) as (H1 & H2 & _).
  fold T in H1, H2. split; [exact H1|].
  rewrite (List.map_ext_in _
             (fun k => firstn (Z.to_nat size)
                         (skipn ((k - 1) * Z.to_nat size) txs))).
  - rewrite PageFacts.chunks_prefix. apply firstn_all2. nia.
  - intros k Hk. apply in_seq in Hk.
    unfold getCurrentPageTransactions. simpl.
    rewrite PageFacts.slice_from by nia.
    do 2 f_equal. nia.
Qed.

Lemma pages_partition_transactions_witness :
  let txs := repeat (Samples.tx Samples.A Samples.B 1 "t") 23 in
  let T := totalPagesFor txs 10 in
  (1 <= T)%Z
  /\ concat
       (List.map
          (fun k => getCurrentPageTransactions txs
                      (mkPaging (Z.of_nat k) 10 T))
          (seq 1 (Z.to_nat T)))
     = txs.
Proof.
  apply (pages_partition_transactions
           (repeat (Samples.tx Samples.A Samples.B 1 "t") 23) 10).
  reflexivity.
Defined.

(** X20: [handlePageChange] ignores a page outside 1..[totalPages] and
    otherwise moves there, so a current page inside that range stays
    inside it; and when [totalPages] is the count for the list and the
    page size is positive, a page inside the range of a non-empty list
    shows at least one record and at most [pageSize]. *)
Theorem page_change_stays_in_range (page : Z) (p : Paging)
    (txs : list Transaction.t) :
  let p' := handlePageChange page p in
  ((page < 1 \/ totalPages p < page)%Z -> p' = p)
  /\ ((1 <= page <= totalPages p)%Z -> currentPage p' = page)
  /\ pageSize p' = pageSize p /\ totalPages p' = totalPages p
  /\ ((1 <= currentPage p <= totalPages p)%Z ->
      (1 <= currentPage p' <= totalPages p')%Z
      /\ ((0 < pageSize p)%Z -> txs <> [] ->
          totalPages p = totalPagesFor txs (pageSize p) ->
          (1 <= Z.of_nat (length (getCurrentPageTransactions txs p'))
           <= pageSize p)%Z)).
Proof.
  intros p'.
  assert ((page < 1 \/ totalPages p < page)%Z -> p' = p) as Hout.
  { intros H. unfold p', handlePageChange.
    destruct (1 <=? page)%Z eqn:E1, (page <=? totalPages p)%Z eqn:E2;
      simpl; try reflexivity. lia. }
  assert ((1 <= page <= totalPages p)%Z ->
          p' = mkPaging page (pageSize p) (totalPages p)) as Hin.
  { intros H. unfold p', handlePageChange.
    destruct (1 <=? page)%Z eqn:E1, (page <=? totalPages p)%Z eqn:E2;
      simpl; try reflexivity; lia. }
  assert (pageSize p' = pageSize p /\ totalPages p' = totalPages p)
    as [Hps Htp].
  { unfold p', handlePageChange.
    destruct ((1 <=? page)%Z && (page <=? totalPages p)%Z); now split. }
  split; [exact Hout|].
  split; [intros H; now rewrite (Hin H)|].
  split; [exact Hps|]. split; [exact Htp|].
  intros Hcur.
  assert (1 <= currentPage p' <= totalPages p')%Z as Hcur'.
  { rewrite Htp.
    destruct (Z.lt_ge_cases page 1) as [H | H];
      [rewrite Hout by lia; exact Hcur|].
    destruct (Z.lt_ge_cases (totalPages p) page) as [H' | H'];
      [rewrite Hout by lia; exact Hcur|].
    rewrite Hin by lia. simpl. lia. }
  split; [exact Hcur'|].
  intros Hs Hne Hsync.
  destruct (PageFacts.totalPages_bounds txs (pageSize p) Hs)
    as (_ & _ & Hlt).
  specialize (Hlt Hne). rewrite <- Hsync in Hlt.
  unfold getCurrentPageTransactions. rewrite Hps.
  rewrite Htp in Hcur'.
  rewrite PageFacts.slice_from by nia.
  rewrite length_firstn, length_skipn. nia.
Qed.

Lemma page_change_stays_in_range_witness :
  let txs := repeat (Samples.tx Samples.A Samples.B 1 "t") 23 in
  let p := MoreSamples.pagingOf 23 10 in
  let p' := handlePageChange 3 p in
  currentPage p' = 3%Z
  /\ (1 <= currentPage p' <= totalPages p')%Z
  /\ (1 <= Z.of_nat (length (getCurrentPageTransactions txs p'))
      <= pageSize p)%Z.
Proof.
  destruct (page_change_stays_in_range 3 (MoreSamples.pagingOf 23 10)
              (repeat (Samples.tx Samples.A Samples.B 1 "t") 23))
    as (_ & Hmove & _ & _ & Hrange).
  split; [apply Hmove; vm_compute; split; discriminate|].
  destruct Hrange as [Hr Hlen]; [vm_compute; split; discriminate|].
  split; [exact Hr|].
  apply Hlen; [reflexivity | discriminate | reflexivity].
Defined.

Module CooldownFacts.

Lemma ticks_idle k : forall c,
  timerRunning c = false -> ticks k c = c.
Proof.
  induction k as [|k IH]; intros c Hc; [reflexivity|].
  cbn [ticks]. unfold intervalTick. rewrite Hc. now apply IH.
Qed.

(** The first firing of a cooldown of at most one second ends it. *)
Lemma first_tick_low n :
  (n <= 1)%Z ->
  intervalTick (mkCooldown true n true) = mkCooldown false 0 false.
Proof.
  intros Hn. unfold intervalTick, intervalCallback.
  cbn [timerRunning cooldownSeconds].
  destruct (n <=? 1)%Z eqn:E; [reflexivity | lia].
Qed.

(** The first firing of a longer cooldown lowers the counter, and the
    render it causes clears the interval. *)
Lemma first_tick_high n :
  (1 < n)%Z ->
  intervalTick (mkCooldown true n true) = mkCooldown true (n - 1) false.
Proof.
  intros Hn. unfold intervalTick, intervalCallback.
  cbn [timerRunning cooldownSeconds searchCooldown].
  destruct (n <=? 1)%Z eqn:E; [lia|].
  unfold handleSearchChanged. cbn [cooldownSeconds searchCooldown].
  destruct (n =? n - 1)%Z eqn:E2; [lia | reflexivity].
Qed.

End CooldownFacts.

(** X21: the countdown stops after the first firing of its interval.
    After [startCooldown(n)] the search is blocked and the counter
    shows [n].  When [n] is at most 1 the first firing frees the search
    and clears the timer.  When [n] is 2 or more the first firing
    lowers the counter to [n - 1]; the render that follows re-creates
    [handleSearch], the cleanup of the effect that depends on it clears
    the interval, and from then on the search stays blocked with the
    counter at [n - 1]. *)
Theorem cooldown_stops_after_first_firing (n : Z) (c : Cooldown) (k : nat) :
  ticks 0 (startCooldown n c) = mkCooldown true n true
  /\ ((n <= 1)%Z ->
      ticks (S k) (startCooldown n c) = mkCooldown false 0 false)
  /\ ((1 < n)%Z ->
      ticks (S k) (startCooldown n c) = mkCooldown true (n - 1) false).
Proof.
  unfold startCooldown. split; [reflexivity|]. split; intros Hn; cbn [ticks].
  - rewrite CooldownFacts.first_tick_low by exact Hn.
    now apply CooldownFacts.ticks_idle.
  - rewrite CooldownFacts.first_tick_high by exact Hn.
    now apply CooldownFacts.ticks_idle.
Qed.

(** X22: while a cooldown is on, a search is refused at once.
    Otherwise a search less than two seconds after the last one is
    refused with a wait of one or two whole seconds, two when less than
    a second has passed and one otherwise, which covers the rest of the
    two seconds; from two seconds on the search goes on.  The cooldown
    started for a wait of one second ends at the first firing of its
    interval; the one started for a wait of two seconds is left at one
    second with its interval cleared, so that every later search is
    refused. *)
Theorem throttle_waits_one_or_two (now lastSearchTime : Z) (c : Cooldown) :
  (lastSearchTime <= now)%Z ->
  (searchCooldown c = true -> throttle now lastSearchTime c = InCooldown)
  /\ (searchCooldown c = false ->
      (throttle now lastSearchTime c = Proceed
       <-> (2000 <= now - lastSearchTime)%Z)
      /\ forall w c',
           throttle now lastSearchTime c = TooSoon w c' ->
           (1 <= w <= 2)%Z
           /\ (w = 2%Z <-> (now - lastSearchTime < 1000)%Z)
           /\ (2000 <= now - lastSearchTime + w * 1000)%Z
           /\ c' = startCooldown w c
           /\ (w = 1%Z ->
               forall k, ticks (S k) c' = mkCooldown false 0 false)
           /\ (w = 2%Z ->
               forall k later,
                 ticks (S k) c' = mkCooldown true 1 false
                 /\ throttle later lastSearchTime (ticks (S k) c')
                    = InCooldown)).
Proof.
  intros Hmono. unfold throttle. split; [now intros ->|]. intros ->.
  set (d := (now - lastSearchTime)%Z).
  destruct (d <? 2000)%Z eqn:E.
  - split; [split; [discriminate | lia]|].
    intros w c' H.
    set (q := inject_Z (2000 - d) / 1000) in H.
    injection H as Hw Hc. rewrite Hw in Hc. subst c'.
    assert (q * 1000 == inject_Z (2000 - d)) as Hq
      by (unfold q; field).
    pose proof (Qle_ceiling q) as Hup.
    pose proof (Qceiling_lt q) as Hlo.
    rewrite Hw in Hup, Hlo.
    assert (inject_Z (2000 - d) <= inject_Z (w * 1000)) as H1.
    { rewrite inject_Z_mult, <- Hq.
      apply Qmult_le_compat_r; [exact Hup | discriminate]. }
    assert (inject_Z ((w - 1) * 1000) < inject_Z (2000 - d)) as H2.
    { rewrite inject_Z_mult, <- Hq.
      apply Qmult_lt_compat_r; [reflexivity | exact Hlo]. }
    rewrite <- Zle_Qle in H1. rewrite <- Zlt_Qlt in H2.
    assert (1 <= w <= 2)%Z as Hr by lia.
    split; [exact Hr|]. split; [lia|]. split; [lia|].
    split; [reflexivity|].
    unfold startCooldown. split.
    + intros ->. intros k. cbn [ticks].
      rewrite CooldownFacts.first_tick_low by lia.
      now apply CooldownFacts.ticks_idle.
    + intros ->. intros k later. cbn [ticks].
      rewrite CooldownFacts.first_tick_high by lia.
      rewrite CooldownFacts.ticks_idle by reflexivity.
      now split.
  - split; [split; [lia | reflexivity]|]. intros w c' H. discriminate H.
Qed.

Lemma throttle_waits_one_or_two_witness :
  let c' := startCooldown 2 (mkCooldown false 0 false) in
  (1 <= 2 <= 2)%Z
  /\ (2%Z = 2%Z <-> (1500 - 1000 < 1000)%Z)
  /\ (2000 <= 1500 - 1000 + 2 * 1000)%Z
  /\ c' = startCooldown 2 (mkCooldown false 0 false)
  /\ (2%Z = 1%Z ->
      forall k, ticks (S k) c' = mkCooldown false 0 false)
  /\ (2%Z = 2%Z ->
      forall k later,
        ticks (S k) c' = mkCooldown true 1 false
        /\ throttle later 1000 (ticks (S k) c') = InCooldown).
Proof.
  assert (1000 <= 1500)%Z as Hmono by lia.
  destruct (throttle_waits_one_or_two 1500 1000 (mkCooldown false 0 false)
              Hmono) as [_ H].
  destruct (H eq_refl) as [_ H2].
  apply (H2 2%Z). reflexivity.
Defined.

Module CacheFacts.

Section WithData.

Variable Data : Type.

Local Abbreviation keys m := (List.map fst (m : Cache Data)).
Local Abbreviation ts e := (timestamp Data (snd (e : string * CacheEntry Data))).

Lemma mapGet_None k (m : Cache Data) :
  ~ In k (keys m) -> mapGet Data k m = None.
Proof.
  induction m as [|[k' v'] m IH]; intros H; simpl; [reflexivity|].
  destruct (String.eqb_spec k' k) as [-> | Hne].
  - exfalso. apply H. now left.
  - apply IH. intros Hin. apply H. now right.
Qed.

Lemma mapGet_Some_In k v (m : Cache Data) :
  mapGet Data k m = Some v -> In (k, v) m.
Proof.
  induction m as [|[k' v'] m IH]; simpl; [discriminate|].
  destruct (String.eqb_spec k' k) as [-> | Hne].
  - intros E. injection E as ->. now left.
  - intros E. right. now apply IH.
Qed.

Lemma mapSet_absent k v (m : Cache Data) :
  ~ In k (keys m) -> mapSet Data k v m = m ++ [(k, v)].
Proof.
  induction m as [|[k' v'] m IH]; intros H; simpl; [reflexivity|].
  destruct (String.eqb_spec k' k) as [-> | Hne].
  - exfalso. apply H. now left.
  - rewrite IH; [reflexivity|]. intros Hin. apply H. now right.
Qed.

Lemma mapSet_present k v (m : Cache Data) :
  In k (keys m) ->
  keys (mapSet Data k v m) = keys m
  /\ length (mapSet Data k v m) = length m.
Proof.
  induction m as [|[k' v'] m IH]; intros H; simpl; [destruct H|].
  destruct (String.eqb_spec k' k) as [-> | Hne]; simpl.
  - now split.
  - destruct H as [H | H]; [simpl in H; congruence|].
    destruct (IH H) as [-> ->]. now split.
Qed.

Lemma mapGet_mapSet_same k v (m : Cache Data) :
  mapGet Data k (mapSet Data k v m) = Some v.
Proof.
  induction m as [|[k' v'] m IH]; simpl.
  - now rewrite String.eqb_refl.
  - destruct (String.eqb_spec k' k) as [-> | Hne]; simpl.
    + now rewrite String.eqb_refl.
    + apply String.eqb_neq in Hne. now rewrite Hne.
Qed.

Lemma mapGet_mapSet_other k k' v (m : Cache Data) :
  k' <> k -> mapGet Data k' (mapSet Data k v m) = mapGet Data k' m.
Proof.
  intros Hne. induction m as [|[k0 v0] m IH]; simpl.
  - apply String.eqb_neq in Hne. rewrite String.eqb_sym. now rewrite Hne.
  - destruct (String.eqb_spec k0 k) as [-> | Hne0]; simpl.
    + destruct (String.eqb_spec k k'); [congruence | reflexivity].
    + now rewrite IH.
Qed.

Lemma mapSet_NoDup k v (m : Cache Data) :
  List.NoDup (keys m) -> List.NoDup (keys (mapSet Data k v m)).
Proof.
  intros Hnd. destruct (in_dec String.string_dec k (keys m)) as [Hin | Hout].
  - now rewrite (proj1 (mapSet_present k v m Hin)).
  - rewrite (mapSet_absent k v m Hout), List.map_app. simpl.
    apply List.NoDup_app; [exact Hnd | repeat constructor; intros [] |].
    intros a Ha [<- | []]. contradiction.
Qed.

Lemma mapGet_mapDelete_same k (m : Cache Data) :
  mapGet Data k (mapDelete Data k m) = None.
Proof.
  apply mapGet_None. unfold mapDelete. intros Hin.
  apply in_map_iff in Hin as ([k' v'] & <- & Hf).
  apply filter_In in Hf as [_ Hf]. simpl in Hf.
  now rewrite String.eqb_refl in Hf.
Qed.

Lemma mapGet_mapDelete_other k k' (m : Cache Data) :
  k' <> k -> mapGet Data k' (mapDelete Data k m) = mapGet Data k' m.
Proof.
  intros Hne. unfold mapDelete.
  induction m as [|[k0 v0] m IH]; simpl; [reflexivity|].
  destruct (String.eqb_spec k0 k) as [-> | Hne0]; simpl.
  - destruct (String.eqb_spec k k'); [congruence | exact IH].
  - now rewrite IH.
Qed.

Lemma mapDelete_length k (m : Cache Data) :
  List.NoDup (keys m) -> In k (keys m) ->
  S (length (mapDelete Data k m)) = length m.
Proof.
  unfold mapDelete.
  induction m as [|[k0 v0] m IH]; intros Hnd Hin; [destruct Hin|].
  simpl in *. apply List.NoDup_cons_iff in Hnd as [Hk0 Hnd].
  destruct (String.eqb_spec k0 k) as [-> | Hne0]; simpl.
  - f_equal. rewrite BuilderFacts.filter_all; [reflexivity|].
    intros [k1 v1] H1. simpl. apply negb_true_iff, String.eqb_neq.
    intros ->. apply Hk0. apply in_map_iff. now exists (k, v1).
  - f_equal. apply IH; [exact Hnd|]. destruct Hin; congruence.
Qed.

Lemma mapDelete_NoDup k (m : Cache Data) :
  List.NoDup (keys m) -> List.NoDup (keys (mapDelete Data k m)).
Proof.
  unfold mapDelete.
  induction m as [|[k0 v0] m IH]; intros Hnd; simpl; [constructor|].
  simpl in Hnd. apply List.NoDup_cons_iff in Hnd as [Hk0 Hnd].
  destruct (negb (String.eqb k0 k)); simpl; [|now apply IH].
  constructor; [|now apply IH].
  intros Hin. apply Hk0. apply in_map_iff in Hin as (e & He & Hf).
  apply filter_In in Hf as [Hf _]. apply in_map_iff. now exists e.
Qed.

(** The entry that sorts first: the first one with the smallest key. *)
Lemma sortBy_head {X} (key : X -> Z) (l : list X) :
  l <> [] ->
  exists l1 o l2,
    l = l1 ++ o :: l2
    /\ hd_error (Js.sortBy key l) = Some o
    /\ (forall e, In e l1 -> (key o < key e)%Z)
    /\ (forall e, In e l2 -> (key o <= key e)%Z).
Proof.
  induction l as [|a l IH]; intros Hne; [contradiction|].
  destruct l as [|b l'].
  - exists [], a, []. simpl. repeat split; intros e [].
  - destruct (IH ltac:(discriminate)) as (l1 & o & l2 & El & Hh & H1 & H2).
    unfold Js.sortBy in *. cbn [fold_right]. cbn [fold_right] in Hh.
    destruct (Js.insertBy key b (fold_right (Js.insertBy key) [] l'))
      as [|h rest] eqn:Es; [discriminate Hh|].
    simpl in Hh. injection Hh as ->. simpl.
    destruct (key a <=? key o)%Z eqn:E.
    + exists [], a, (b :: l'). simpl. split; [reflexivity|].
      split; [reflexivity|]. split; [intros e []|].
      intros e He.
      assert (In e (l1 ++ o :: l2)) as He' by (rewrite <- El; exact He).
      clear He. rename He' into He. apply in_app_or in He.
      apply Z.leb_le in E.
      destruct He as [He | [<- | He]];
        [specialize (H1 e He) | | specialize (H2 e He)]; lia.
    + exists (a :: l1), o, l2. rewrite El. simpl.
      split; [reflexivity|]. split; [reflexivity|].
      split; [|exact H2]. apply Z.leb_gt in E.
      intros e [<- | He]; [lia | now apply H1].
Qed.

End WithData.

End CacheFacts.

Module CacheStoreFacts.
Import CacheFacts.

(** The two ways [cacheStore] can end, for a map of at most ten
    entries none of which is newer than the one stored. *)
Lemma cacheStore_cases (Data : Type) address (d : Data) now
    (prev : Cache Data) :
  List.NoDup (List.map fst prev) ->
  (length prev <= 10)%nat ->
  (forall e, In e prev -> (timestamp Data (snd e) <= now)%Z) ->
  let newCache := mapSet Data address (mkEntry Data d now) prev in
  ((In address (List.map fst prev) \/ length prev < 10)%nat
   /\ cacheStore Data address d now prev = newCache)
  \/ (length prev = 10%nat /\ ~ In address (List.map fst prev)
      /\ newCache = prev ++ [(address, mkEntry Data d now)]
      /\ exists o,
           In o prev
           /\ (forall e, In e prev ->
                 (timestamp Data (snd o) <= timestamp Data (snd e))%Z)
           /\ cacheStore Data address d now prev
              = mapDelete Data (fst o) newCache).
Proof.
  intros Hnd Hlen Hts newCache. unfold cacheStore. fold newCache.
  destruct (in_dec String.string_dec address (List.map fst prev))
    as [Hin | Hout].
  { left. split; [now left|].
    unfold newCache. rewrite (proj2 (mapSet_present Data _ _ _ Hin)).
    destruct (10 <? length prev)%nat eqn:E; [|reflexivity].
    apply Nat.ltb_lt in E. lia. }
  assert (newCache = prev ++ [(address, mkEntry Data d now)]) as En
    by (apply mapSet_absent; exact Hout).
  assert (length newCache = S (length prev)) as Ln
    by (rewrite En, length_app; simpl; lia).
  destruct (10 <? length newCache)%nat eqn:E.
  2:{ left. apply Nat.ltb_ge in E. split; [right; lia | reflexivity]. }
  apply Nat.ltb_lt in E. right.
  split; [lia|]. split; [exact Hout|]. split; [exact En|].
  destruct (sortBy_head (fun e => timestamp Data (snd e)) newCache)
    as (l1 & o & l2 & El & Hh & H1 & H2).
  { rewrite En. now destruct prev. }
  destruct (Js.sortBy _ newCache) as [|h rest]; [discriminate Hh|].
  simpl in Hh. injection Hh as ->.
  assert (In o prev) as Ho.
  { destruct l2 as [|x l2] using rev_ind.
    - rewrite En in El. apply app_inj_tail in El as [<- <-].
      destruct prev as [|e0 prev']; [simpl in *; lia|].
      specialize (H1 e0 (or_introl eq_refl)).
      specialize (Hts e0 (or_introl eq_refl)). simpl in H1. lia.
    - clear IHl2. rewrite En in El.
      change (l1 ++ o :: l2 ++ [x]) with (l1 ++ (o :: l2) ++ [x]) in El.
      rewrite app_assoc in El. apply app_inj_tail in El as [-> _].
      apply in_or_app. right. now left. }
  exists o. split; [exact Ho|]. split; [|reflexivity].
  intros e He.
  assert (In e newCache) as He' by (rewrite En; apply in_or_app; now left).
  rewrite El in He'. apply in_app_or in He' as [He' | [<- | He']].
  - specialize (H1 e He'). simpl in H1. lia.
  - lia.
  - now apply H2.
Qed.

End CacheStoreFacts.

(** X23: the search cache stays small and never loses what was just
    stored.  On a map of at most ten entries with distinct keys, none
    newer than the response being stored, [cacheStore] returns a map of
    at most ten entries with distinct keys in which the address maps to
    the new response; and when the address was cached already or fewer
    than ten entries were held, every other entry is kept. *)
Theorem cache_store_keeps_new_entry (Data : Type) address (d : Data) now
    (prev : Cache Data) :
  List.NoDup (List.map fst prev) ->
  (length prev <= 10)%nat ->
  (forall e, In e prev -> (timestamp Data (snd e) <= now)%Z) ->
  let c := cacheStore Data address d now prev in
  (length c <= 10)%nat
  /\ List.NoDup (List.map fst c)
  /\ mapGet Data address c = Some (mkEntry Data d now)
  /\ ((In address (List.map fst prev) \/ length prev < 10)%nat ->
      forall k, k <> address -> mapGet Data k c = mapGet Data k prev).
Proof.
  intros Hnd Hlen Hts c.
  destruct (CacheStoreFacts.cacheStore_cases Data address d now prev
              Hnd Hlen Hts)
    as [[Hcase E] | (H10 & Hout & En & o & Ho & Hmin & E)];
    unfold c; rewrite E.
  - split.
    { destruct (in_dec String.string_dec address (List.map fst prev))
        as [Hin | Hno].
      - rewrite (proj2 (CacheFacts.mapSet_present Data _ _ _ Hin)). lia.
      - rewrite (CacheFacts.mapSet_absent Data _ _ _ Hno), length_app.
        simpl. destruct Hcase; [contradiction | lia]. }
    split; [now apply CacheFacts.mapSet_NoDup|].
    split; [apply CacheFacts.mapGet_mapSet_same|].
    intros _ k Hk. now apply CacheFacts.mapGet_mapSet_other.
  - assert (fst o <> address) as Hne.
    { intros Eo. apply Hout. rewrite <- Eo. now apply in_map. }
    assert (List.NoDup
              (List.map fst
                 (mapSet Data address (mkEntry Data d now) prev))) as Hnd'
      by now apply CacheFacts.mapSet_NoDup.
    split.
    { assert (In (fst o)
                (List.map fst
                   (mapSet Data address (mkEntry Data d now) prev))) as Hin
        by (rewrite En; apply in_map, in_or_app; now left).
      pose proof (CacheFacts.mapDelete_length Data (fst o) _ Hnd' Hin) as Hl.
      assert (length (mapSet Data address (mkEntry Data d now) prev)
              = S (length prev)) as Ln
        by (rewrite En, length_app; simpl; lia).
      lia. }
    split; [now apply CacheFacts.mapDelete_NoDup|].
    split.
    { rewrite CacheFacts.mapGet_mapDelete_other by congruence.
      apply CacheFacts.mapGet_mapSet_same. }
    intros [Hin | Hlt]; [contradiction | lia].
Qed.

Lemma cache_store_keeps_new_entry_witness :
  let prev := MoreSamples.twoEntries in
  let c := cacheStore nat "0xC" 3%nat 30 prev in
  (length c <= 10)%nat
  /\ List.NoDup (List.map fst c)
  /\ mapGet nat "0xC" c = Some (mkEntry nat 3%nat 30)
  /\ ((In "0xC" (List.map fst prev) \/ length prev < 10)%nat ->
      forall k, k <> "0xC" -> mapGet nat k c = mapGet nat k prev).
Proof.
  apply (cache_store_keeps_new_entry nat "0xC" 3%nat 30%Z
           MoreSamples.twoEntries).
  - repeat constructor; simpl; intuition discriminate.
  - simpl. lia.
  - intros e [<- | [<- | []]]; simpl; lia.
Defined.

(** X24: when an eleventh address is stored, exactly one entry is
    evicted, and it is an oldest one: some entry of the previous map
    whose timestamp is not above any other's is no longer found, every
    other previous entry is still found unchanged, and ten entries are
    held. *)
Theorem cache_store_evicts_oldest (Data : Type) address (d : Data) now
    (prev : Cache Data) :
  List.NoDup (List.map fst prev) ->
  length prev = 10%nat ->
  ~ In address (List.map fst prev) ->
  (forall e, In e prev -> (timestamp Data (snd e) <= now)%Z) ->
  let c := cacheStore Data address d now prev in
  length c = 10%nat
  /\ exists o,
       In o prev
       /\ (forall e, In e prev ->
             (timestamp Data (snd o) <= timestamp Data (snd e))%Z)
       /\ mapGet Data (fst o) c = None
       /\ forall k, k <> fst o -> k <> address ->
                    mapGet Data k c = mapGet Data k prev.
Proof.
  intros Hnd H10 Hout Hts c.
  destruct (CacheStoreFacts.cacheStore_cases Data address d now prev Hnd
              ltac:(lia) Hts)
    as [[[Hin | Hlt] _] | (_ & _ & En & o & Ho & Hmin & E)];
    [contradiction | lia |].
  unfold c. rewrite E.
  assert (List.NoDup
            (List.map fst (mapSet Data address (mkEntry Data d now) prev)))
    as Hnd' by now apply CacheFacts.mapSet_NoDup.
  split.
  { assert (In (fst o)
              (List.map fst
                 (mapSet Data address (mkEntry Data d now) prev))) as Hin
      by (rewrite En; apply in_map, in_or_app; now left).
    pose proof (CacheFacts.mapDelete_length Data (fst o) _ Hnd' Hin) as Hl.
    assert (length (mapSet Data address (mkEntry Data d now) prev)
            = S (length prev)) as Ln
      by (rewrite En, length_app; simpl; lia).
    lia. }
  exists o. split; [exact Ho|]. split; [exact Hmin|].
  split; [apply CacheFacts.mapGet_mapDelete_same|].
  intros k Hk Hka.
  rewrite CacheFacts.mapGet_mapDelete_other by exact Hk.
  now apply CacheFacts.mapGet_mapSet_other.
Qed.

Lemma cache_store_evicts_oldest_witness :
  let prev := MoreSamples.tenEntries in
  let c := cacheStore nat "0xC" 10%nat 100 prev in
  length c = 10%nat
  /\ exists o,
       In o prev
       /\ (forall e, In e prev ->
             (timestamp nat (snd o) <= timestamp nat (snd e))%Z)
       /\ mapGet nat (fst o) c = None
       /\ forall k, k <> fst o -> k <> "0xC" ->
                    mapGet nat k c = mapGet nat k prev.
Proof.
  apply (cache_store_evicts_oldest nat "0xC" 10%nat 100%Z
           MoreSamples.tenEntries).
  - repeat constructor; simpl; intuition discriminate.
  - reflexivity.
  - simpl. intuition discriminate.
  - intros e He. simpl in He.
    repeat (destruct He as [<- | He]; [simpl; lia|]). destruct He.
Defined.

Module StarFacts.

Lemma NoDup_map_filter {X Y} (f : X -> Y) (p : X -> bool) (l : list X) :
  List.NoDup (List.map f l) -> List.NoDup (List.map f (List.filter p l)).
Proof.
  induction l as [|a l IH]; intros H; simpl; [constructor|].
  simpl in H. apply List.NoDup_cons_iff in H as [Ha H].
  destruct (p a); simpl; [|now apply IH].
  constructor; [|now apply IH].
  intros Hin. apply Ha. apply in_map_iff in Hin as (b & Hb & Hf).
  apply filter_In in Hf as [Hf _]. apply in_map_iff. now exists b.
Qed.

Lemma NoDup_map_firstn {X Y} (f : X -> Y) (n : nat) (l : list X) :
  List.NoDup (List.map f l) -> List.NoDup (List.map f (firstn n l)).
Proof.
  revert l. induction n as [|n IH]; intros l H; simpl; [constructor|].
  destruct l as [|a l]; simpl; [constructor|].
  simpl in H. apply List.NoDup_cons_iff in H as [Ha H].
  constructor; [|now apply IH].
  intros Hin. apply Ha. apply in_map_iff in Hin as (b & Hb & Hf).
  apply BuilderFacts.In_firstn in Hf. apply in_map_iff. now exists b.
Qed.

End StarFacts.

(** X25: after the route's aggregation the component draws at most one
    link per ordered pair of nodes: in the graph built from a response,
    no two links have both the same source node and the same target
    node. *)
Theorem response_graph_one_link_per_pair
    address nowIso result explored detailLevel st g :
  simulation (build (responseGraphTransactions address nowIso result)
                    address explored detailLevel st) = Some g ->
  List.NoDup
    (List.map (fun l => (id <$> Link.source l, id <$> Link.target l))
              (links g)).
Proof.
  intros Hg. unfold build in Hg.
  apply BuildResult.simulation_Some in Hg as (Hne & Hn & Hlinks & _).
  set (resp := responseGraphTransactions address nowIso result) in *.
  set (limited := limitedTransactions (transactionLimit detailLevel) resp)
    in *.
  assert (List.map id (nodes g) = nodeIds address limited) as Ig
    by (rewrite Hn; apply NodeFacts.ids_mkNodes).
  rewrite Hlinks, List.map_map.
  rewrite (List.map_ext_in _
             (fun tx => (Some (Transaction.source tx),
                         Some (Transaction.target tx)))).
  2:{ intros tx Hin. simpl.
      pose proof (BuilderFacts.limited_valid _ _ _ Hin) as Hv.
      destruct (BuilderFacts.nodeIds_ends address limited tx Hin Hv)
        as [Hs Ht].
      now rewrite !ViewFacts.nodeMap_lookup_id by (rewrite Ig; assumption). }
  assert (List.NoDup (List.map ends limited)) as Hnd.
  { unfold limited, limitedTransactions, validTransactions.
    apply StarFacts.NoDup_map_firstn, StarFacts.NoDup_map_filter.
    destruct (PipelineFacts.response_cases address nowIso result)
      as [[_ E] | [[_ E] | (r & E & _)]]; fold resp in E; rewrite E.
    - apply AggregationFacts.simplified_ends_NoDup.
      + apply RouteFacts.uniqueAddresses_NoDup.
      + intros a Ha.
        apply RouteFacts.uniqueAddresses_In in Ha as (_ & _ & _ & _ & Sa).
        now apply RouteFacts.sameAddress_false_neq.
    - constructor.
    - repeat constructor. intros []. }
  rewrite <- (List.map_map ends (fun e => (Some (fst e), Some (snd e)))).
  apply List.NoDup_map_inv with (f := fun e : option string * option string =>
                                   (default "" (fst e), default "" (snd e))).
  rewrite List.map_map, List.map_map. simpl.
  rewrite (List.map_ext _ ends) by reflexivity. exact Hnd.
Qed.

Lemma response_graph_one_link_per_pair_witness :
  List.NoDup
    (List.map (fun l => (id <$> Link.source l, id <$> Link.target l))
              (links MoreSamples.historyGraph)).
Proof.
  apply (response_graph_one_link_per_pair MoreSamples.addr "now"
           MoreSamples.history ∅ medium Samples.st0).
  vm_compute. reflexivity.
Defined.

(** X26: an error, once shown, is kept.  While the component shows a
    message the [svg] is out of the document, so the effect returns at
    its first line whatever the new transactions are: the message, the
    loading flag and the two counts stay as they were, and no
    simulation is created. *)
Theorem shown_error_is_kept txs focus explored detailLevel st msg :
  error st = Some msg ->
  Js.truthy msg = true ->
  let r := build txs focus explored detailLevel st in
  error r = Some msg
  /\ isLoading r = isLoading st
  /\ totalTransactionCount r = totalTransactionCount st
  /\ displayedTransactionCount r = displayedTransactionCount st
  /\ simulation r = None.
Proof.
  intros He Ht r. unfold r, build.
  rewrite BuilderFacts.graphEffect_unmounted
    by (unfold svgMounted; now rewrite He, Ht).
  simpl. now repeat split.
Qed.

Lemma shown_error_is_kept_witness :
  let st := Samples.shown msgNoData in
  let r := build Samples.inOut Samples.A ∅ medium st in
  error r = Some msgNoData
  /\ isLoading r = isLoading st
  /\ totalTransactionCount r = totalTransactionCount st
  /\ displayedTransactionCount r = displayedTransactionCount st
  /\ simulation r = None.
Proof.
  apply (shown_error_is_kept Samples.inOut Samples.A ∅ medium
           (Samples.shown msgNoData) msgNoData); reflexivity.
Defined.

(** ** From the transactions of a wallet to the edges of its graph *)

Module EdgeFacts.
Import RouteFacts.







End EdgeFacts.



